(** * squarish: factor pairs closest to a square, and how square a number is

    A shallow embedding of [squarish/squarish.py] and
    [squarish/arbitrary_ratios.py].

    Python integers are unbounded, so they are [Z].  Python floats are IEEE 754
    binary64 numbers; they are modelled by the Standard Library's executable
    specification [SpecFloat] at precision 53 and maximal exponent 1024, so
    that [math.sqrt], [/] and [+] round exactly as CPython's do.  Exceptions
    are an explicit result type.  [functools.lru_cache] only memoises pure
    functions and is transparent here. *)

From Stdlib Require Import ZArith List Bool Lia Znumtheory.
From Stdlib Require Import Floats.SpecFloat.
Import ListNotations.
Open Scope Z_scope.

(** ** The fragment of the Python runtime the two modules use *)
Module Py.

Inductive exn : Set :=
| ValueError
| OverflowError
| ZeroDivisionError
| IndexError
| NotImplementedError.

Inductive result (A : Type) : Type :=
| Ok (a : A)
| Raise (e : exn).
Arguments Ok {A} a.
Arguments Raise {A} e.

Definition bind {A B : Type} (r : result A) (k : A -> result B) : result B :=
  match r with
  | Ok a => k a
  | Raise e => Raise e
  end.

Notation "x <- r ;; k" := (bind r (fun x => k))
  (at level 61, r at next level, right associativity).
Notation "' p <- r ;; k" := (bind r (fun x => let 'p := x in k))
  (at level 61, p pattern, r at next level, right associativity).

(** [try: body  except e: handler] *)
Definition try_except {A : Type} (body : result A) (e : exn) (handler : result A)
  : result A :=
  match body with
  | Ok a => Ok a
  | Raise e' =>
      match e, e' with
      | ValueError, ValueError
      | OverflowError, OverflowError
      | ZeroDivisionError, ZeroDivisionError
      | IndexError, IndexError
      | NotImplementedError, NotImplementedError => handler
      | _, _ => Raise e'
      end
  end.

(** *** binary64 *)
Definition prec : Z := 53.
Definition emax : Z := 1024.
Definition float : Set := spec_float.

Definition fdiv : float -> float -> float := SFdiv prec emax.
Definition fadd : float -> float -> float := SFadd prec emax.
Definition fsqrt : float -> float := SFsqrt prec emax.

(** A number is an [int] or a [float]. *)
Inductive num : Set :=
| Int (z : Z)
| Float (f : float).

(** [float(x)] for an int [x]: rounds to nearest, ties to even, and raises
    [OverflowError] when the rounded value does not fit. *)
Definition float_of_int (x : Z) : result float :=
  match binary_normalize prec emax x 0 false with
  | S754_infinity _ => Raise OverflowError
  | f => Ok f
  end.

(** [math.sqrt] on a float: a domain error where the square root is no
    number. *)
Definition sqrt_float (f : float) : result float :=
  match f with
  | S754_nan => Ok S754_nan
  | _ =>
      match fsqrt f with
      | S754_nan => Raise ValueError
      | r => Ok r
      end
  end.

(** [math.sqrt(x)] for an int [x] *)
Definition math_sqrt (x : Z) : result float :=
  f <- float_of_int x ;; sqrt_float f.

(** [int(f)]: truncation towards zero *)
Definition int_of_float (f : float) : result Z :=
  match f with
  | S754_zero _ => Ok 0
  | S754_infinity _ => Raise OverflowError
  | S754_nan => Raise ValueError
  | S754_finite s m e => Ok (cond_Zopp s (Z.shiftl (Zpos m) e))
  end.

(** [math.floor(f)] *)
Definition math_floor (f : float) : result Z :=
  match f with
  | S754_zero _ => Ok 0
  | S754_infinity _ => Raise OverflowError
  | S754_nan => Raise ValueError
  | S754_finite s m e => Ok (Z.shiftl (cond_Zopp s (Zpos m)) e)
  end.

(** Comparison of an int with a float is exact: no conversion, no
    rounding. *)
Definition compare_int_float (n : Z) (f : float) : option comparison :=
  match f with
  | S754_nan => None
  | S754_infinity s => Some (if s then Gt else Lt)
  | S754_zero _ => Some (n ?= 0)
  | S754_finite s m e =>
      Some (if 0 <=? e
            then n ?= cond_Zopp s (Zpos m) * 2 ^ e
            else n * 2 ^ (- e) ?= cond_Zopp s (Zpos m))
  end.

Definition num_compare (a b : num) : option comparison :=
  match a, b with
  | Int x, Int y => Some (x ?= y)
  | Float x, Float y => SFcompare x y
  | Int x, Float y => compare_int_float x y
  | Float x, Int y => option_map CompOpp (compare_int_float y x)
  end.

Definition num_eqb (a b : num) : bool :=
  match num_compare a b with Some Eq => true | _ => false end.
Definition num_ltb (a b : num) : bool :=
  match num_compare a b with Some Lt => true | _ => false end.
Definition num_leb (a b : num) : bool :=
  match num_compare a b with Some (Lt | Eq) => true | _ => false end.
Definition num_gtb (a b : num) : bool := num_ltb b a.

Definition is_zero (f : float) : bool :=
  match f with S754_zero _ => true | _ => false end.

(** [a / b] on floats *)
Definition float_truediv (a b : float) : result float :=
  if is_zero b then Raise ZeroDivisionError else Ok (fdiv a b).

(** [a / b] on ints: the exact quotient, rounded once. *)
Definition int_truediv (a b : Z) : result float :=
  if b =? 0 then Raise ZeroDivisionError
  else if a =? 0 then Ok (S754_zero (b <? 0))
  else
    let '(q, e, l) := SFdiv_core_binary prec emax (Z.abs a) 0 (Z.abs b) 0 in
    match binary_round_aux prec emax (xorb (a <? 0) (b <? 0)) q e l with
    | S754_infinity _ => Raise OverflowError
    | f => Ok f
    end.

(** [a % b] on ints *)
Definition int_mod (a b : Z) : result Z :=
  if b =? 0 then Raise ZeroDivisionError else Ok (a mod b).

(** [range(a, b)] *)
Definition range (a b : Z) : list Z :=
  map (fun i => a + Z.of_nat i) (seq 0 (Z.to_nat (b - a))).

(** [sorted(l, key=key, reverse=reverse)]: a stable sort; with [reverse]
    the order is descending and equal keys still keep their order. *)
Fixpoint insert_by (key : Z -> Z) (reverse : bool) (x : Z) (l : list Z) : list Z :=
  match l with
  | [] => [x]
  | y :: ys =>
      if (if reverse then key y <=? key x else key x <=? key y)
      then x :: y :: ys
      else y :: insert_by key reverse x ys
  end.

Definition sorted (l : list Z) (key : option (Z -> Z)) (reverse : bool) : list Z :=
  let k := match key with Some k => k | None => fun x => x end in
  fold_right (insert_by k reverse) [] l.

(** [l[0]] *)
Definition item0 {A : Type} (l : list A) : result A :=
  match l with
  | [] => Raise IndexError
  | x :: _ => Ok x
  end.

(** [max(c, key=key)]: the first item whose key no later key exceeds. *)
Fixpoint max_loop (key : Z -> result num) (best : Z) (kbest : num) (l : list Z)
  : result Z :=
  match l with
  | [] => Ok best
  | x :: xs =>
      k <- key x ;;
      if num_gtb k kbest then max_loop key x k xs else max_loop key best kbest xs
  end.

Definition max_key (c : list Z) (key : Z -> result num) : result Z :=
  match c with
  | [] => Raise ValueError
  | x :: xs => k <- key x ;; max_loop key x k xs
  end.

(** [max(l)] and [min(l)] on ints: the first item that no later item
    exceeds, or undercuts. *)
Definition builtin_max (l : list Z) : result Z :=
  match l with
  | [] => Raise ValueError
  | x :: xs => Ok (fold_left (fun m y => if m <? y then y else m) xs x)
  end.

Definition builtin_min (l : list Z) : result Z :=
  match l with
  | [] => Raise ValueError
  | x :: xs => Ok (fold_left (fun m y => if y <? m then y else m) xs x)
  end.

End Py.
Import Py.

(** ** squarish/squarish.py *)
Module Squarish.

(** [[x for x in c if p(x)]] *)
Fixpoint comprehension_if (p : Z -> result bool) (c : list Z) : result (list Z) :=
  match c with
  | [] => Ok []
  | x :: xs =>
      b <- p x ;;
      r <- comprehension_if p xs ;;
      Ok (if b then x :: r else r)
  end.

Definition is_square (x : Z) : result bool :=
  try_except
    (s <- math_sqrt x ;;
     i <- int_of_float s ;;
     s' <- math_sqrt x ;;
     Ok (num_eqb (Int i) (Float s')))
    ValueError
    (Ok false).

(** The loop [for d in range(mid, 0, -1)] of [squarish_factors], with [n]
    the next [d]; when it completes, the function raises. *)
Fixpoint squarish_factors_loop (x : Z) (n : nat) : result (Z * Z) :=
  match n with
  | O => Raise ValueError
  | S k =>
      let d := Z.of_nat n in
      r <- int_mod x d ;;
      if r =? 0
      then (q <- int_truediv x d ;; i <- int_of_float q ;; Ok (i, d))
      else squarish_factors_loop x k
  end.

Definition squarish_factors (x : Z) : result (Z * Z) :=
  b <- is_square x ;;
  if b then
    s <- math_sqrt x ;;
    sr <- int_of_float s ;;
    Ok (sr, sr)
  else
    s <- math_sqrt x ;;
    mid <- math_floor s ;;
    squarish_factors_loop x (Z.to_nat mid).

Definition squareness (x : Z) : result num :=
  if x =? 0 then Ok (Int 1)
  else
    sr <- math_sqrt x ;;
    '(m, n) <- squarish_factors x ;;
    fm <- float_of_int m ;;
    a <- float_truediv sr fm ;;
    fn <- float_of_int n ;;
    b <- float_truediv fn sr ;;
    two <- float_of_int 2 ;;
    h <- float_truediv (fadd a b) two ;;
    Ok (Float h).

Definition is_squarish (x : Z) (threshold : num) : result bool :=
  s <- squareness x ;; Ok (num_gtb s threshold).

Definition is_prime (x : Z) : result bool :=
  '(a, b) <- squarish_factors x ;; Ok (Z.min a b =? 1).

Definition squarest_of (c : list Z) (sort_key : option (Z -> Z))
  (reverse_on_key : bool) : result Z :=
  try_except
    (squares <- comprehension_if is_square c ;;
     item0 (sorted squares sort_key reverse_on_key))
    IndexError
    (max_key c squareness).

Definition squarest_total (m n : Z) (return_greatest : bool) : result Z :=
  squarest_of (range m (m + n + 1)) None return_greatest.

Definition r_size (x : list Z) : result Z :=
  mx <- builtin_max x ;; mn <- builtin_min x ;; Ok (mx - mn).

End Squarish.

(** ** squarish/arbitrary_ratios.py *)
Module ArbitraryRatios.

(** A ratio to fit: a number, a pair or a fraction. *)
Inductive ratio : Set :=
| RNum (r : num)
| RPair (p q : Z)
| RFraction (p q : Z).

Definition fittest_of (c : list Z) (r : ratio) (sort_key : option (Z -> Z))
  (reverse_on_key : bool) : result Z :=
  Raise NotImplementedError.

Definition fittest_total (m n : Z) (r : ratio) (return_greatest : bool) : result Z :=
  fittest_of (range m (m + n + 1)) r None return_greatest.

Definition pair_eqb (p q : num * num) : bool :=
  num_eqb (fst p) (fst q) && num_eqb (snd p) (snd q).

(** [factors.add(p)] on a set kept as a duplicate-free list *)
Definition set_add (p : num * num) (s : list (num * num)) : list (num * num) :=
  if existsb (pair_eqb p) s then s else s ++ [p].

(** The loop [for d in range(math.floor(sqrt_x))] of [factors_of] *)
Fixpoint factors_of_loop (x : Z) (ds : list Z) (factors : list (num * num))
  : result (list (num * num)) :=
  match ds with
  | [] => Ok factors
  | d :: ds' =>
      r <- int_mod x d ;;
      if r =? 0
      then (q <- int_truediv x d ;;
            i <- int_of_float q ;;
            factors_of_loop x ds' (set_add (Int d, Int i) factors))
      else factors_of_loop x ds' factors
  end.

Definition factors_of (x : Z) : result (list (num * num)) :=
  sqrt_x <- math_sqrt x ;;
  i <- int_of_float sqrt_x ;;
  let factors :=
    if num_eqb (Float sqrt_x) (Int i)
    then set_add (Float sqrt_x, Float sqrt_x) []
    else [] in
  n <- math_floor sqrt_x ;;
  factors_of_loop x (range 0 n) factors.

End ArbitraryRatios.

(** [is_square] as squarish/arbitrary_ratios.py defines it again.  It
    carries the name of a function of squarish.py, so it stays in a module of
    its own. *)
Module ArbitraryRatiosHelpers.

(** This [is_square] has no [try]. *)
Definition is_square (x : Z) : result bool :=
  s <- math_sqrt x ;;
  i <- int_of_float s ;;
  s' <- math_sqrt x ;;
  Ok (num_eqb (Int i) (Float s')).

End ArbitraryRatiosHelpers.
Import Squarish ArbitraryRatios.

(** ** Notions the statements use *)

(** A rounded mantissa and exponent as a float: infinity past the largest
    exponent *)
Definition pack (sx : bool) (me : Z * Z) : float :=
  if snd me <=? 971 then S754_finite sx (Z.to_pos (fst me)) (snd me)
  else S754_infinity sx.

(** A mantissa that rounding carried up to [2^53], brought back to 53 bits *)
Definition norm53 (m e : Z) : Z * Z :=
  if m =? 2 ^ 53 then (2 ^ 52, e + 1) else (m, e).

(** the positive binary64 number [m * 2^e] with a full 53-bit mantissa *)
Definition fin (m e : Z) : float := S754_finite false (Z.to_pos m) e.

(** A full 53-bit mantissa *)
Definition mant (m : Z) : Prop := 2 ^ 52 <= m < 2 ^ 53.

(** [f] is at most one *)
Definition le_one (m e : Z) : Prop := e <= -53 \/ (e = -52 /\ m = 2 ^ 52).

(** The exponent, the scale and the mantissa of [math.sqrt(x)] *)
Definition sq_exp (x : Z) : Z := (Z.log2 x + 1 - 53) / 2 - 26.

Definition sq_scale (x : Z) : Z := 2 ^ (- sq_exp x).

Definition sq_mant (x : Z) : Z :=
  let M := x * (sq_scale x * sq_scale x) in
  let q := Z.sqrt M in
  if M - q * q <=? q then q else q + 1.

(** The float [1.0] *)
Definition float_one : float := S754_finite false 4503599627370496 (-52).

(** The exact value of a number, in units of [2^-1074] *)
Definition rank (v : num) : Z :=
  match v with
  | Int z => z * 2 ^ 1074
  | Float (S754_finite s m e) => cond_Zopp s (Zpos m) * 2 ^ (e + 1074)
  | Float _ => 0
  end.

(** The values [squareness] takes: the int 1, or a full-mantissa float *)
Definition good (v : num) : Prop :=
  v = Int 1 \/ exists m e, v = Float (fin m e) /\ mant m /\ -1074 <= e <= 0.

(** The value of [squareness(x)] where it returns *)
Definition score_of (x : Z) : num :=
  match squareness x with Ok v => v | Raise _ => Int 0 end.

(** The exact value of that score *)
Definition fitness (x : Z) : Z := rank (score_of x).

(** [is_square(x)] returns [True] *)
Definition is_square_b (x : Z) : bool :=
  match is_square x with Ok true => true | _ => false end.

(** [x] and [y] have a squareness, and Python finds the one of [x] [<=],
    [<] or [==] the one of [y]. *)
Definition fit_le (x y : Z) : Prop :=
  exists vx vy, squareness x = Ok vx /\ squareness y = Ok vy /\ num_leb vx vy = true.

Definition fit_lt (x y : Z) : Prop :=
  exists vx vy, squareness x = Ok vx /\ squareness y = Ok vy /\ num_ltb vx vy = true.

Definition fit_eq (x y : Z) : Prop :=
  exists vx vy, squareness x = Ok vx /\ squareness y = Ok vy /\ num_eqb vx vy = true.

(** [[f(x) for x in l]] *)
Fixpoint map_result {A B : Type} (f : A -> result B) (l : list A) : result (list B) :=
  match l with
  | [] => Ok []
  | x :: xs => y <- f x ;; ys <- map_result f xs ;; Ok (y :: ys)
  end.

(** The greatest of the scores, as a left-to-right scan finds it *)
Definition best_score (s0 : num) (rest : list num) : num :=
  fold_left (fun b s => if num_gtb s b then s else b) rest s0.

(** The selector as the specification words it, with no shortcut: the
    fitness of every candidate, the maximum, the candidates that reach it,
    sorted, and the first of them. *)
Definition full_scan (c : list Z) (pick_highest_tie : bool) : result Z :=
  scores <- map_result squareness c ;;
  match scores with
  | [] => Raise ValueError
  | s0 :: rest =>
      let best := best_score s0 rest in
      let tied := map fst (filter (fun p => num_eqb (snd p) best) (combine c scores)) in
      item0 (sorted tied None pick_highest_tie)
  end.

(** Every candidate is below [2^52], where [math.sqrt] is exact enough *)
Definition small (c : list Z) : Prop := forall x, In x c -> 0 <= x < 2 ^ 52.

(** The floats [0.9] and [0.89], as Python reads the literals *)
Definition float_0_9 : float := S754_finite false 8106479329266893 (-53).

Definition float_0_89 : float := S754_finite false 8016407336719483 (-53).

(** The float [0.75], the default threshold of [is_squarish] *)
Definition float_0_75 : float := S754_finite false 6755399441055744 (-53).

(** The key [sorted] orders by *)
Definition key_of (sort_key : option (Z -> Z)) : Z -> Z :=
  match sort_key with Some k => k | None => fun x => x end.

(** ** binary64: digits, shifts and rounding *)

Lemma digits2_size p : digits2_pos p = Pos.size p.
Proof. induction p; simpl; congruence. Qed.

Lemma Zdigits_log2 p : Zpos (digits2_pos p) = Z.log2 (Zpos p) + 1.
Proof.
  rewrite digits2_size. destruct p; simpl; lia.
Qed.

Lemma digits_unique p d :
  2 ^ (d - 1) <= Zpos p < 2 ^ d -> Zpos (digits2_pos p) = d.
Proof.
  intros H. rewrite Zdigits_log2.
  assert (0 <= d - 1).
  { destruct (Z_lt_le_dec (d - 1) 0) as [Hn|]; [|assumption].
    assert (d <= 0) by lia.
    assert (2 ^ d <= 2 ^ 0) by (destruct (Z_lt_le_dec d 0);
      [rewrite Z.pow_neg_r by lia; simpl; lia | apply Z.pow_le_mono_r; lia]).
    simpl in *. lia. }
  rewrite (Z.log2_unique (Zpos p) (d - 1)); try lia.
  replace (Z.succ (d - 1)) with d by lia. assumption.
Qed.

Lemma digits_bounds p :
  2 ^ (Zpos (digits2_pos p) - 1) <= Zpos p < 2 ^ (Zpos (digits2_pos p)).
Proof.
  rewrite Zdigits_log2.
  replace (Z.log2 (Zpos p) + 1 - 1) with (Z.log2 (Zpos p)) by lia.
  apply (Z.log2_spec (Zpos p)). lia.
Qed.

Lemma iter_pos_nat {A : Type} (f : A -> A) n x :
  iter_pos f n x = Nat.iter (Pos.to_nat n) f x.
Proof.
  revert x. induction n; intros x.
  - rewrite Pos2Nat.inj_xI.
    replace (S (2 * Pos.to_nat n))%nat with (Pos.to_nat n + S (Pos.to_nat n))%nat by lia.
    rewrite Nat.iter_add, Nat.iter_succ_r. cbn [iter_pos]. rewrite !IHn. reflexivity.
  - rewrite Pos2Nat.inj_xO.
    replace (2 * Pos.to_nat n)%nat with (Pos.to_nat n + Pos.to_nat n)%nat by lia.
    rewrite Nat.iter_add. cbn [iter_pos]. rewrite !IHn. reflexivity.
  - reflexivity.
Qed.

Lemma shr_1_m mrs : 0 <= shr_m mrs -> shr_m (shr_1 mrs) = shr_m mrs / 2.
Proof.
  destruct mrs as [m r s]. simpl. intros Hm.
  destruct m as [|p|p]; try lia; [reflexivity|].
  destruct p; simpl shr_m.
  - rewrite Pos2Z.inj_xI. apply Z.div_unique with 1; lia.
  - rewrite Pos2Z.inj_xO. apply Z.div_unique with 0; lia.
  - reflexivity.
Qed.

Lemma shr_1_exact mrs :
  0 <= shr_m mrs -> shr_r mrs = false -> shr_s mrs = false ->
  shr_m mrs mod 2 = 0 ->
  shr_r (shr_1 mrs) = false /\ shr_s (shr_1 mrs) = false.
Proof.
  destruct mrs as [m r s]. simpl. intros Hm -> -> Hev.
  destruct m as [|p|p]; try lia; [split; reflexivity|].
  destruct p; simpl; try (split; reflexivity).
  - rewrite Pos2Z.inj_xI in Hev.
    replace (2 * Z.pos p + 1) with (1 + Z.pos p * 2) in Hev by lia.
    rewrite Z.mod_add in Hev by lia. discriminate.
  - discriminate.
Qed.

Lemma iter_shr_m k mrs :
  0 <= shr_m mrs ->
  shr_m (Nat.iter k shr_1 mrs) = shr_m mrs / 2 ^ Z.of_nat k.
Proof.
  intros Hm. induction k.
  - simpl. rewrite Z.div_1_r. reflexivity.
  - rewrite Nat2Z.inj_succ, Z.pow_succ_r by lia. simpl Nat.iter.
    rewrite shr_1_m; rewrite IHk.
    + rewrite Z.div_div by lia. f_equal. lia.
    + apply Z.div_pos; lia.
Qed.

Lemma iter_shr_exact k mrs :
  0 <= shr_m mrs -> shr_r mrs = false -> shr_s mrs = false ->
  shr_m mrs mod 2 ^ Z.of_nat k = 0 ->
  shr_r (Nat.iter k shr_1 mrs) = false /\ shr_s (Nat.iter k shr_1 mrs) = false.
Proof.
  intros Hm Hr Hs. induction k; intros Hd.
  - simpl. auto.
  - rewrite Nat2Z.inj_succ, Z.pow_succ_r in Hd by lia.
    assert (Hk : shr_m mrs mod 2 ^ Z.of_nat k = 0).
    { apply Z.mod_divide in Hd; [|lia]. apply Z.mod_divide; [lia|].
      destruct Hd as [c Hc]. exists (c * 2). lia. }
    destruct (IHk Hk) as [Hr' Hs']. simpl Nat.iter.
    apply shr_1_exact; auto.
    + rewrite iter_shr_m by assumption. apply Z.div_pos; lia.
    + rewrite iter_shr_m by assumption.
      apply Z.mod_divide in Hd; [|lia]. destruct Hd as [c Hc].
      rewrite Hc. replace (c * (2 * 2 ^ Z.of_nat k)) with (c * 2 * 2 ^ Z.of_nat k) by lia.
      rewrite Z.div_mul by lia. apply Z.mod_mul. lia.
Qed.

Lemma loc_of_shr_record_of_loc m l :
  loc_of_shr_record (shr_record_of_loc m l) = l.
Proof. destruct l as [|[]]; reflexivity. Qed.

Lemma shr_m_record_of_loc m l : shr_m (shr_record_of_loc m l) = m.
Proof. destruct l as [|[]]; reflexivity. Qed.

Lemma round_nearest_even_bounds m l :
  m <= round_nearest_even m l <= m + 1.
Proof.
  destruct l as [|[]]; simpl; try lia. destruct (Z.even m); lia.
Qed.

Lemma fexp_eq z : -1074 <= z - 53 -> fexp prec emax z = z - 53.
Proof. unfold fexp, SpecFloat.emin, prec, emax. lia. Qed.

Lemma pow2_split a b : 0 <= a -> 0 <= b -> 2 ^ (a + b) = 2 ^ a * 2 ^ b.
Proof. intros. apply Z.pow_add_r; assumption. Qed.

Lemma pow2_pos a : 0 < 2 ^ a \/ (a < 0 /\ 2 ^ a = 0).
Proof.
  destruct (Z_lt_le_dec a 0).
  - right. split; [assumption|]. apply Z.pow_neg_r. assumption.
  - left. apply Z.pow_pos_nonneg; lia.
Qed.

Lemma top_bits (m D : Z) :
  53 <= D -> 2 ^ (D - 1) <= m < 2 ^ D ->
  2 ^ 52 <= m / 2 ^ (D - 53) < 2 ^ 53.
Proof.
  intros HD [Hlo Hhi].
  assert (Hp : 0 < 2 ^ (D - 53)) by (apply Z.pow_pos_nonneg; lia).
  assert (E1 : 2 ^ (D - 1) = 2 ^ 52 * 2 ^ (D - 53))
    by (rewrite <- pow2_split by lia; f_equal; lia).
  assert (E2 : 2 ^ D = 2 ^ 53 * 2 ^ (D - 53))
    by (rewrite <- pow2_split by lia; f_equal; lia).
  rewrite E1 in Hlo. rewrite E2 in Hhi.
  split.
  - apply Z.div_le_lower_bound; lia.
  - apply Z.div_lt_upper_bound; lia.
Qed.

Lemma shr_fexp_spec (mx : positive) ex lx :
  let D := Zpos (digits2_pos mx) in
  53 <= D -> -1074 <= ex + (D - 53) ->
  exists mrs,
    shr_fexp prec emax (Zpos mx) ex lx = (mrs, ex + (D - 53))
    /\ shr_m mrs = Zpos mx / 2 ^ (D - 53)
    /\ (D = 53 -> mrs = shr_record_of_loc (Zpos mx) lx)
    /\ (lx = loc_Exact -> Zpos mx mod 2 ^ (D - 53) = 0 ->
        shr_r mrs = false /\ shr_s mrs = false).
Proof.
  intros D HD He. unfold shr_fexp. cbn [Zdigits2]. fold D.
  rewrite fexp_eq by lia.
  replace (D + ex - 53 - ex) with (D - 53) by lia.
  destruct (D - 53) as [|n|n] eqn:Hn; try lia.
  - eexists. split; [cbn [shr]; f_equal; lia|].
    rewrite shr_m_record_of_loc, Z.div_1_r.
    repeat split; intros; subst; reflexivity.
  - cbn [shr]. rewrite iter_pos_nat. eexists. split; [reflexivity|].
    rewrite iter_shr_m by (rewrite shr_m_record_of_loc; lia).
    rewrite positive_nat_Z, shr_m_record_of_loc.
    split; [reflexivity|]. split; [intros; lia|].
    intros -> Hd. apply iter_shr_exact; try reflexivity.
    + simpl. lia.
    + rewrite positive_nat_Z. exact Hd.
Qed.

Lemma bra_spec sx (mx : positive) ex lx :
  let D := Zpos (digits2_pos mx) in
  53 <= D -> -1074 <= ex + (D - 53) ->
  exists l',
    binary_round_aux prec emax sx (Zpos mx) ex lx
      = pack sx (norm53 (round_nearest_even (Zpos mx / 2 ^ (D - 53)) l')
                        (ex + (D - 53)))
    /\ (D = 53 -> l' = lx)
    /\ (lx = loc_Exact -> Zpos mx mod 2 ^ (D - 53) = 0 -> l' = loc_Exact).
Proof.
  intros D HD He.
  destruct (shr_fexp_spec mx ex lx HD He) as (mrs & Hs & Hm & H53 & Hex).
  fold D in Hs, Hm, H53, Hex.
  pose proof (top_bits (Zpos mx) D HD (digits_bounds mx)) as Hq.
  exists (loc_of_shr_record mrs).
  split; [|split].
  - unfold binary_round_aux. rewrite Hs. rewrite Hm.
    set (q0 := Zpos mx / 2 ^ (D - 53)) in *.
    set (e1 := ex + (D - 53)) in *.
    pose proof (round_nearest_even_bounds q0 (loc_of_shr_record mrs)) as Hr.
    set (mr := round_nearest_even q0 (loc_of_shr_record mrs)) in *.
    destruct mr as [|pr|pr] eqn:Hmr; try lia.
    unfold norm53.
    destruct (Z.eqb_spec (Zpos pr) (2 ^ 53)) as [E|E].
    + (* carry into the next binade *)
      assert (Hd : Zpos (digits2_pos pr) = 54)
        by (apply digits_unique; rewrite E; simpl; lia).
      unfold shr_fexp. cbn [Zdigits2]. rewrite Hd.
      rewrite fexp_eq by lia.
      replace (54 + e1 - 53 - e1) with 1 by lia.
      cbn [shr iter_pos shr_record_of_loc].
      injection E as ->. cbn [shr_1 shr_m].
      unfold pack. cbn [fst snd].
      change (emax - prec) with 971.
      replace (e1 + 1) with (e1 + 1) by lia. reflexivity.
    + assert (Hd : Zpos (digits2_pos pr) = 53)
        by (apply digits_unique; simpl in *; lia).
      unfold shr_fexp. cbn [Zdigits2]. rewrite Hd.
      rewrite fexp_eq by lia.
      replace (53 + e1 - 53 - e1) with 0 by lia.
      cbn [shr shr_record_of_loc shr_m].
      unfold pack. cbn [fst snd]. change (emax - prec) with 971.
      rewrite Pos2Z.id. reflexivity.
  - intros E. rewrite (H53 E). apply loc_of_shr_record_of_loc.
  - intros E Hd. destruct (Hex E Hd) as [Hr' Hs'].
    destruct mrs as [m r s]. simpl in Hr', Hs'. subst. reflexivity.
Qed.

(** ** binary64: conversion of ints *)

Lemma mant_digits m : mant m -> Zpos (digits2_pos (Z.to_pos m)) = 53.
Proof.
  intros [H1 H2]. apply digits_unique.
  rewrite Z2Pos.id by (simpl in *; lia). simpl in *. lia.
Qed.

Lemma mant_pos m : mant m -> Zpos (Z.to_pos m) = m.
Proof. intros [H1 H2]. apply Z2Pos.id. simpl in *. lia. Qed.

(** binary_round_aux on a mantissa of at least 53 bits: the result keeps the
    top 53 bits, possibly plus one. *)
Lemma bra_cases sx (mx : positive) ex lx :
  let D := Zpos (digits2_pos mx) in
  let q0 := Zpos mx / 2 ^ (D - 53) in
  let e1 := ex + (D - 53) in
  53 <= D -> -1074 <= e1 -> e1 + 1 <= 971 ->
  exists m e,
    binary_round_aux prec emax sx (Zpos mx) ex lx = S754_finite sx (Z.to_pos m) e
    /\ mant m
    /\ ((m = q0 /\ e = e1)
        \/ (m = q0 + 1 /\ e = e1
            /\ ~ (lx = loc_Exact /\ Zpos mx mod 2 ^ (D - 53) = 0)
            /\ (D = 53 -> lx <> loc_Exact /\ lx <> loc_Inexact Lt))
        \/ (m = 2 ^ 52 /\ e = e1 + 1 /\ q0 + 1 = 2 ^ 53
            /\ ~ (lx = loc_Exact /\ Zpos mx mod 2 ^ (D - 53) = 0)
            /\ (D = 53 -> lx <> loc_Exact /\ lx <> loc_Inexact Lt))).
Proof.
  intros D q0 e1 HD He Hemax.
  destruct (bra_spec sx mx ex lx HD He) as (l' & Hb & H53 & Hex).
  fold D in Hb, H53, Hex. fold q0 in Hb. fold e1 in Hb.
  pose proof (top_bits (Zpos mx) D HD (digits_bounds mx)) as Hq. fold q0 in Hq.
  pose proof (round_nearest_even_bounds q0 l') as Hr.
  assert (Hne : round_nearest_even q0 l' = q0 + 1 ->
                ~ (lx = loc_Exact /\ Zpos mx mod 2 ^ (D - 53) = 0)
                /\ (D = 53 -> lx <> loc_Exact /\ lx <> loc_Inexact Lt)).
  { intros E. split.
    - intros [E1 E2]. rewrite (Hex E1 E2) in E. simpl in E. lia.
    - intros E53. rewrite (H53 E53) in E.
      split; intros ->; simpl in E; lia. }
  rewrite Hb. unfold norm53.
  destruct (Z.eqb_spec (round_nearest_even q0 l') (2 ^ 53)) as [E|E].
  - exists (2 ^ 52), (e1 + 1). unfold pack. cbn [fst snd].
    destruct (Z.leb_spec (e1 + 1) 971); [|lia].
    split; [reflexivity|]. split; [unfold mant; simpl; lia|].
    right. right. assert (round_nearest_even q0 l' = q0 + 1) by lia.
    destruct (Hne H0).
    split; [reflexivity|]. split; [reflexivity|]. split; [lia|]. split; assumption.
  - exists (round_nearest_even q0 l'), e1. unfold pack. cbn [fst snd].
    destruct (Z.leb_spec e1 971); [|lia].
    split; [reflexivity|]. split; [unfold mant; lia|].
    destruct (Z.eq_dec (round_nearest_even q0 l') q0) as [E0|E0].
    + left. auto.
    + right. left. assert (E1 : round_nearest_even q0 l' = q0 + 1) by lia.
      destruct (Hne E1).
      split; [assumption|]. split; [reflexivity|]. split; assumption.
Qed.

Lemma pos_iter_xO p d : Zpos (Pos.iter xO p d) = Zpos p * 2 ^ Zpos d.
Proof.
  induction d using Pos.peano_ind.
  - simpl. lia.
  - rewrite Pos.iter_succ, Pos2Z.inj_xO, IHd, Pos2Z.inj_succ, Z.pow_succ_r by lia.
    lia.
Qed.

Lemma shl_align_fst mx ex ez :
  ez <= ex -> Zpos (fst (shl_align mx ex ez)) = Zpos mx * 2 ^ (ex - ez).
Proof.
  intros H. unfold shl_align.
  destruct (ez - ex) as [|d|d] eqn:E; try lia.
  - replace (ex - ez) with 0 by lia. simpl. lia.
  - cbn [fst]. rewrite pos_iter_xO. f_equal. f_equal. lia.
Qed.

Lemma shl_align_snd mx ex ez : ez <= ex -> snd (shl_align mx ex ez) = ez.
Proof.
  intros H. unfold shl_align.
  destruct (ez - ex) as [|d|d] eqn:E; try lia; cbn [snd]; lia.
Qed.

Lemma shl_align_id mx ex ez : ex <= ez -> shl_align mx ex ez = (mx, ex).
Proof.
  intros H. unfold shl_align. destruct (ez - ex) eqn:E; try lia; reflexivity.
Qed.

(** A mantissa of fewer than 53 bits is shifted left, exactly. *)
Lemma binary_round_small sx (mx : positive) ex :
  let D := Zpos (digits2_pos mx) in
  D <= 53 -> -1074 <= ex + D - 53 <= 971 ->
  binary_round prec emax sx mx ex
  = S754_finite sx (Z.to_pos (Zpos mx * 2 ^ (53 - D))) (ex + D - 53).
Proof.
  intros D HD He. unfold binary_round. fold D.
  rewrite fexp_eq by lia.
  pose proof (digits_bounds mx) as Hb. fold D in Hb.
  assert (HD1 : 1 <= D) by (unfold D; lia).
  assert (Hm : mant (Zpos mx * 2 ^ (53 - D))).
  { unfold mant.
    assert (E1 : 2 ^ 52 = 2 ^ (D - 1) * 2 ^ (53 - D))
      by (rewrite <- pow2_split by lia; f_equal; lia).
    assert (E2 : 2 ^ 53 = 2 ^ D * 2 ^ (53 - D))
      by (rewrite <- pow2_split by lia; f_equal; lia).
    rewrite E1, E2.
    assert (0 < 2 ^ (53 - D)) by (apply Z.pow_pos_nonneg; lia).
    split; [apply Z.mul_le_mono_nonneg_r | apply Z.mul_lt_mono_pos_r]; lia. }
  destruct (shl_align mx ex (D + ex - 53)) as [mz ez] eqn:Hs.
  assert (Hmz : Zpos mz = Zpos mx * 2 ^ (53 - D)).
  { replace mz with (fst (shl_align mx ex (D + ex - 53))) by (rewrite Hs; reflexivity).
    rewrite shl_align_fst by lia. f_equal. f_equal. lia. }
  assert (Hez : ez = ex + D - 53).
  { replace ez with (snd (shl_align mx ex (D + ex - 53))) by (rewrite Hs; reflexivity).
    rewrite shl_align_snd by lia. lia. }
  assert (Hdz : Zpos (digits2_pos mz) = 53).
  { rewrite <- (mant_digits _ Hm). rewrite <- Hmz. rewrite Pos2Z.id. reflexivity. }
  destruct (bra_spec sx mz ez loc_Exact) as (l' & Hbr & H53 & _); try lia.
  rewrite Hbr. rewrite (H53 Hdz). rewrite Hdz.
  replace (53 - 53) with 0 by lia. rewrite Z.div_1_r.
  cbn [round_nearest_even]. unfold norm53.
  destruct (Z.eqb_spec (Zpos mz) (2 ^ 53)) as [E|E].
  - unfold mant in Hm. lia.
  - unfold pack. cbn [fst snd]. replace (ez + 0) with ez by lia.
    destruct (Z.leb_spec ez 971); [|lia].
    rewrite <- Hmz, Hez. reflexivity.
Qed.

(** A mantissa of 53 bits or more goes to the rounding as it is. *)
Lemma binary_round_large sx (mx : positive) ex :
  let D := Zpos (digits2_pos mx) in
  53 <= D -> -1074 <= ex + D - 53 ->
  binary_round prec emax sx mx ex
  = binary_round_aux prec emax sx (Zpos mx) ex loc_Exact.
Proof.
  intros D HD He. unfold binary_round. fold D.
  rewrite fexp_eq by lia. rewrite shl_align_id by lia. reflexivity.
Qed.

Lemma float_of_int_small x :
  0 < x < 2 ^ 53 ->
  let D := Z.log2 x + 1 in
  float_of_int x = Ok (fin (x * 2 ^ (53 - D)) (D - 53)).
Proof.
  intros Hx D. destruct x as [|p|p]; try lia.
  unfold float_of_int, binary_normalize.
  assert (HD : Zpos (digits2_pos p) = D) by (unfold D; apply Zdigits_log2).
  assert (D <= 53).
  { pose proof (digits_bounds p) as Hb. rewrite HD in Hb.
    destruct (Z_lt_le_dec 53 D); [|lia].
    assert (2 ^ 53 <= 2 ^ (D - 1)) by (apply Z.pow_le_mono_r; lia). lia. }
  assert (1 <= D) by (rewrite <- HD; lia).
  rewrite binary_round_small by (rewrite HD; lia).
  rewrite HD. unfold fin. replace (0 + D - 53) with (D - 53) by lia. reflexivity.
Qed.

Lemma float_of_int_mant x :
  0 < x < 2 ^ 53 -> mant (x * 2 ^ (53 - (Z.log2 x + 1))).
Proof.
  intros Hx. pose proof (Z.log2_spec x ltac:(lia)) as Hb.
  pose proof (Z.log2_nonneg x).
  assert (Z.log2 x < 53) by (apply Z.log2_lt_pow2; lia).
  set (L := Z.log2 x) in *. unfold mant.
  replace (53 - (L + 1)) with (52 - L) by lia.
  assert (E1 : 2 ^ 52 = 2 ^ L * 2 ^ (52 - L))
    by (rewrite <- pow2_split by lia; f_equal; lia).
  assert (E2 : 2 ^ 53 = 2 ^ Z.succ L * 2 ^ (52 - L))
    by (rewrite <- pow2_split by lia; f_equal; lia).
  rewrite E1, E2.
  assert (0 < 2 ^ (52 - L)) by (apply Z.pow_pos_nonneg; lia).
  split; [apply Z.mul_le_mono_nonneg_r | apply Z.mul_lt_mono_pos_r]; lia.
Qed.

(** ** binary64: square root *)

Lemma sqrt_mant M :
  2 ^ 104 <= M < 2 ^ 106 -> 2 ^ 52 <= Z.sqrt M < 2 ^ 53.
Proof.
  intros [H1 H2]. split.
  - replace (2 ^ 52) with (Z.sqrt (2 ^ 52 * 2 ^ 52)) by (apply Z.sqrt_square; simpl; lia).
    apply Z.sqrt_le_mono. simpl in *. lia.
  - apply Z.sqrt_lt_square; simpl in *; lia.
Qed.

Lemma fsqrt_fin m e :
  mant m -> -1074 <= e <= 971 ->
  let e' := e / 2 - 26 in
  let M := m * 2 ^ (e - 2 * e') in
  let q := Z.sqrt M in
  let qr := if M - q * q <=? q then q else q + 1 in
  fsqrt (fin m e) = fin qr e' /\ mant qr.
Proof.
  intros Hm He e' M q qr.
  assert (Hs : e - 2 * e' = 52 \/ e - 2 * e' = 53).
  { unfold e'. pose proof (Z.mod_pos_bound e 2 ltac:(lia)).
    pose proof (Z.div_mod e 2 ltac:(lia)). lia. }
  assert (HM : 2 ^ 104 <= M < 2 ^ 106).
  { unfold M, mant in *. destruct Hs as [-> | ->]; simpl in *; lia. }
  pose proof (sqrt_mant M HM) as Hq. fold q in Hq.
  pose proof (Z.sqrt_spec M ltac:(simpl in *; lia)) as Hsq. fold q in Hsq.
  assert (Hqr : mant qr).
  { unfold qr, mant. destruct (Z.leb_spec (M - q * q) q); [lia|].
    split; [lia|].
    assert (M <= (2 ^ 53 - 1) * 2 ^ 53).
    { unfold M, mant in *. destruct Hs as [-> | ->]; simpl in *; lia. }
    simpl in *. nia. }
  split; [|exact Hqr].
  unfold fsqrt, fin, SFsqrt, SFsqrt_core_binary. cbn [Zdigits2].
  rewrite (mant_digits _ Hm), (mant_pos _ Hm).
  rewrite !Z.div2_div.
  replace ((53 + e + 1) / 2) with (27 + e / 2)
    by (replace (53 + e + 1) with (e + 27 * 2) by lia; rewrite Z.div_add by lia; lia).
  rewrite fexp_eq by (pose proof (Z.div_mod e 2 ltac:(lia));
                      pose proof (Z.mod_pos_bound e 2 ltac:(lia)); lia).
  replace (Z.min (27 + e / 2 - 53) (e / 2)) with e' by (unfold e'; lia).
  assert (Hsh : match e - 2 * e' with
                | 0 => m | Z.pos _ => Z.shiftl m (e - 2 * e') | Z.neg _ => 0 end = M).
  { unfold M. destruct Hs as [-> | ->]; rewrite Z.shiftl_mul_pow2 by lia; reflexivity. }
  rewrite Hsh.
  pose proof (Z.sqrtrem_spec M ltac:(simpl in *; lia)) as Hrem.
  pose proof (Z.sqrtrem_sqrt M) as Hfst.
  destruct (Z.sqrtrem M) as [q' r] eqn:Hqr'. cbn [fst] in Hfst. subst q'. fold q.
  destruct Hrem as [HMr Hr].
  assert (Er : r = M - q * q) by lia.
  destruct q as [|pq|pq] eqn:Epq; try (simpl in Hq; lia).
  assert (Hdq : Zpos (digits2_pos pq) = 53)
    by (apply digits_unique; simpl in *; lia).
  assert (He' : -1074 <= e' /\ e' + 1 <= 971).
  { unfold e'. pose proof (Z.div_mod e 2 ltac:(lia)).
    pose proof (Z.mod_pos_bound e 2 ltac:(lia)). lia. }
  destruct (bra_spec false pq e'
              (if r =? 0 then loc_Exact
               else loc_Inexact (if r <=? Z.pos pq then Lt else Gt)))
    as (l' & Hb & Hl & _); try (rewrite Hdq; lia).
  rewrite Hdq in Hb, Hl. specialize (Hl eq_refl). subst l'.
  replace (53 - 53) with 0 in Hb by lia. rewrite Z.div_1_r in Hb.
  replace (e' + 0) with e' in Hb by lia.
  rewrite Hb.
  assert (Hrn : round_nearest_even (Z.pos pq)
                  (if r =? 0 then loc_Exact
                   else loc_Inexact (if r <=? Z.pos pq then Lt else Gt)) = qr).
  { unfold qr. rewrite <- Er.
    destruct (Z.eqb_spec r 0) as [E0|E0].
    - destruct (Z.leb_spec r (Z.pos pq)); [reflexivity|lia].
    - destruct (Z.leb_spec r (Z.pos pq)); reflexivity. }
  rewrite Hrn. unfold norm53.
  destruct (Z.eqb_spec qr (2 ^ 53)) as [E|E]; [unfold mant in Hqr; lia|].
  unfold pack. cbn [fst snd].
  destruct (Z.leb_spec e' 971); [reflexivity|lia].
Qed.

(** ** binary64: division *)

Ltac pw :=
  unfold mant in *;
  change (2 ^ 1) with 2 in *;
  change (2 ^ 52) with 4503599627370496 in *;
  change (2 ^ 53) with 9007199254740992 in *;
  change (2 ^ 54) with 18014398509481984 in *;
  change (2 ^ 104) with 20282409603651670423947251286016 in *;
  change (2 ^ 106) with 81129638414606681695789005144064 in *.

Lemma new_location_exact n r :
  new_location n r = loc_Exact <-> r = 0.
Proof.
  unfold new_location, new_location_even, new_location_odd.
  destruct (Z.even n); destruct (Z.eqb_spec r 0); split; intros; try reflexivity;
    try assumption; try discriminate; try contradiction.
Qed.

Lemma fdiv_fin_core m1 e1 m2 e2 :
  mant m1 -> mant m2 -> -1074 <= e1 - e2 - 53 ->
  fdiv (fin m1 e1) (fin m2 e2)
  = binary_round_aux prec emax false (m1 * 2 ^ 53 / m2) (e1 - e2 - 53)
      (new_location m2 ((m1 * 2 ^ 53) mod m2)).
Proof.
  intros H1 H2 He. unfold fdiv, fin, SFdiv, SFdiv_core_binary. cbn [Zdigits2 xorb].
  rewrite (mant_digits _ H1), (mant_digits _ H2), (mant_pos _ H1), (mant_pos _ H2).
  replace (53 + e1 - (53 + e2)) with (e1 - e2) by lia.
  rewrite fexp_eq by lia.
  replace (Z.min (e1 - e2 - 53) (e1 - e2)) with (e1 - e2 - 53) by lia.
  replace (e1 - e2 - (e1 - e2 - 53)) with 53 by lia.
  rewrite Z.shiftl_mul_pow2 by lia.
  unfold Z.div, Z.modulo.
  destruct (Z.div_eucl (m1 * 2 ^ 53) m2) as [q r]. reflexivity.
Qed.

Lemma quot_bounds m1 m2 :
  mant m1 -> mant m2 -> 2 ^ 52 <= m1 * 2 ^ 53 / m2 < 2 ^ 54.
Proof.
  unfold mant. intros H1 H2. split.
  - apply Z.div_le_lower_bound; pw; lia.
  - apply Z.div_lt_upper_bound; pw; lia.
Qed.

(** The quotient of two full-mantissa numbers, the dividend no larger than
    the divisor, is at most one, and is one only when they are equal. *)
Lemma fdiv_le m1 e1 m2 e2 :
  mant m1 -> mant m2 -> -1074 <= e1 - e2 - 53 ->
  (e1 < e2 \/ (e1 = e2 /\ m1 <= m2)) ->
  exists m e,
    fdiv (fin m1 e1) (fin m2 e2) = fin m e /\ mant m /\ e1 - e2 - 53 <= e
    /\ ((e <= -53 /\ ~ (e1 = e2 /\ m1 = m2))
        \/ (e = -52 /\ m = 2 ^ 52 /\ e1 = e2 /\ m1 = m2)).
Proof.
  intros H1 H2 He Hle.
  rewrite fdiv_fin_core by assumption.
  pose proof (quot_bounds m1 m2 H1 H2) as Hq.
  pose proof (Z.div_mod (m1 * 2 ^ 53) m2 ltac:(pw; lia)) as Hdm.
  pose proof (Z.mod_pos_bound (m1 * 2 ^ 53) m2 ltac:(pw; lia)) as Hr.
  set (q := m1 * 2 ^ 53 / m2) in *.
  set (r := (m1 * 2 ^ 53) mod m2) in *.
  destruct q as [|pq|pq] eqn:Eq; try (pw; lia).
  destruct (Z_lt_le_dec (Z.pos pq) (2 ^ 53)) as [Hlt|Hge].
  - (* a 53-bit quotient *)
    assert (Hd : Zpos (digits2_pos pq) = 53) by (apply digits_unique; pw; lia).
    destruct (bra_cases false pq (e1 - e2 - 53) (new_location m2 r))
      as (m & e & Hb & Hm & Hc); try (rewrite Hd; lia).
    rewrite Hd in Hc. replace (53 - 53) with 0 in Hc by lia.
    rewrite Z.div_1_r in Hc.
    exists m, e. split; [exact Hb|]. split; [exact Hm|].
    assert (Hm12 : ~ (e1 = e2 /\ m1 = m2)).
    { intros [_ ->]. pw. nia. }
    destruct Hc as [[-> ->] | [(-> & -> & _) | (-> & -> & Hc & _)]].
    + split; [lia|]. left. split; [lia|assumption].
    + split; [lia|]. left. split; [lia|assumption].
    + split; [lia|]. left. split; [|assumption].
      destruct Hle as [Hle|[Hle Hmm]]; [lia|]. exfalso.
      pw. nia.
  - (* a 54-bit quotient *)
    assert (Hd : Zpos (digits2_pos pq) = 54) by (apply digits_unique; pw; lia).
    destruct (bra_cases false pq (e1 - e2 - 53) (new_location m2 r))
      as (m & e & Hb & Hm & Hc); try (rewrite Hd; lia).
    rewrite Hd in Hc. replace (54 - 53) with 1 in Hc by lia.
    change (2 ^ 1) with 2 in Hc.
    exists m, e. split; [exact Hb|]. split; [exact Hm|].
    pose proof (Z.div_mod (Z.pos pq) 2 ltac:(lia)) as Hq2.
    pose proof (Z.mod_pos_bound (Z.pos pq) 2 ltac:(lia)) as Hr2.
    destruct Hle as [Hle|[Hle Hmm]].
    + assert (Hm12 : ~ (e1 = e2 /\ m1 = m2)) by lia.
      destruct Hc as [[-> ->] | [(-> & -> & _) | (-> & -> & Hc & Hne & _)]].
      * split; [lia|]. left. split; [lia|assumption].
      * split; [lia|]. left. split; [lia|assumption].
      * split; [lia|]. left. split; [|assumption].
        destruct (Z_le_gt_dec (e1 - e2 - 53) (-55)); [lia|]. exfalso.
        apply Hne.
        assert (Hpq : 2 ^ 54 - 2 <= Z.pos pq) by (pw; lia).
        assert (Hmul : m2 * (2 ^ 54 - 2) <= m2 * Z.pos pq)
          by (apply Z.mul_le_mono_nonneg_l; [pw; lia|exact Hpq]).
        assert (Hm2 : m2 = 2 ^ 52) by (pw; lia).
        assert (Hm1 : m1 = 2 ^ 53 - 1) by (pw; lia).
        assert (Hr0 : r = 0) by (subst m1 m2; pw; lia).
        split; [apply new_location_exact; exact Hr0|].
        subst m1 m2. pw. lia.
    + assert (m1 = m2) by (pw; nia). subst m2.
      assert (Hq53 : Z.pos pq = 2 ^ 53).
      { unfold q in Eq. rewrite <- Eq. rewrite Z.mul_comm. apply Z.div_mul.
        pw; lia. }
      assert (Hr0 : r = 0).
      { unfold r. rewrite Z.mul_comm. apply Z.mod_mul.
        pw; lia. }
      split; [|right].
      * destruct Hc as [[-> ->] | [(-> & -> & _) | (-> & -> & _)]]; lia.
      * destruct Hc as [[-> ->] | [(-> & -> & Hne & _) | (-> & -> & _ & Hne & _)]].
        -- rewrite Hq53. simpl. repeat split; lia.
        -- exfalso. apply Hne. split; [apply new_location_exact; exact Hr0|].
           rewrite Hq53. reflexivity.
        -- exfalso. apply Hne. split; [apply new_location_exact; exact Hr0|].
           rewrite Hq53. reflexivity.
Qed.

(** Halving is exact. *)
Lemma fdiv_two m e :
  mant m -> -1074 <= e - 2 -> e <= 900 ->
  fdiv (fin m e) (fin (2 ^ 52) (-51)) = fin m (e - 1).
Proof.
  intros Hm He Hup.
  assert (H2 : mant (2 ^ 52)) by (pw; lia).
  rewrite fdiv_fin_core by (try assumption; lia).
  assert (Hq : m * 2 ^ 53 / 2 ^ 52 = 2 * m).
  { replace (m * 2 ^ 53) with (2 * m * 2 ^ 52) by (pw; lia).
    apply Z.div_mul. pw; lia. }
  assert (Hr : (m * 2 ^ 53) mod 2 ^ 52 = 0).
  { replace (m * 2 ^ 53) with (2 * m * 2 ^ 52) by (pw; lia).
    apply Z.mod_mul. pw; lia. }
  rewrite Hq, Hr.
  assert (Hloc : new_location (2 ^ 52) 0 = loc_Exact) by (apply new_location_exact; reflexivity).
  rewrite Hloc.
  destruct (2 * m) as [|pq|pq] eqn:Eq; try (pw; lia).
  assert (Hd : Zpos (digits2_pos pq) = 54)
    by (apply digits_unique; pw; lia).
  destruct (bra_cases false pq (e - -51 - 53) loc_Exact)
    as (m' & e' & Hb & Hm' & Hc); try (rewrite Hd; lia).
  rewrite Hd in Hc. replace (54 - 53) with 1 in Hc by lia.
  change (2 ^ 1) with 2 in Hc.
  assert (Hdiv : Z.pos pq / 2 = m) by (rewrite <- Eq, Z.mul_comm; apply Z.div_mul; lia).
  assert (Hmod : Z.pos pq mod 2 = 0) by (rewrite <- Eq, Z.mul_comm; apply Z.mod_mul; lia).
  rewrite Hb.
  destruct Hc as [[-> ->] | [(-> & -> & Hne & _) | (-> & -> & _ & Hne & _)]].
  - rewrite Hdiv. unfold fin. f_equal. lia.
  - exfalso. apply Hne. split; [reflexivity|assumption].
  - exfalso. apply Hne. split; [reflexivity|assumption].
Qed.

(** ** binary64: addition *)

Lemma scaled_le_one m e ez :
  mant m -> le_one m e -> ez <= e ->
  m * 2 ^ (e - ez) <= 2 ^ 52 * 2 ^ (-52 - ez)
  /\ (e <= -53 -> 2 * (m * 2 ^ (e - ez)) <= (2 ^ 53 - 1) * 2 ^ (-52 - ez)).
Proof.
  intros Hm Hl Hz.
  assert (HA : 0 < 2 ^ (e - ez)) by (apply Z.pow_pos_nonneg; lia).
  destruct Hl as [Hl|[-> ->]].
  - assert (E : 2 ^ (-52 - ez) = 2 ^ (-53 - e) * 2 * 2 ^ (e - ez)).
    { replace (2 ^ (-53 - e) * 2) with (2 ^ (-53 - e + 1))
        by (rewrite pow2_split by lia; reflexivity).
      rewrite <- pow2_split by lia. f_equal. lia. }
    assert (HB : 0 < 2 ^ (-53 - e)) by (apply Z.pow_pos_nonneg; lia).
    rewrite E. pw. split; [nia|intros _; nia].
  - split; [lia|intros; lia].
Qed.

(** The sum of two full-mantissa numbers, each at most one, is at most two,
    and below two when both are below one. *)
Lemma fadd_le ma ea mb eb :
  mant ma -> mant mb -> -1000 <= ea -> -1000 <= eb ->
  le_one ma ea -> le_one mb eb ->
  exists m e,
    fadd (fin ma ea) (fin mb eb) = fin m e /\ mant m /\ Z.min ea eb <= e
    /\ (e <= -52 \/ (e = -51 /\ m = 2 ^ 52))
    /\ (ea <= -53 -> eb <= -53 -> e <= -52).
Proof.
  intros Ha Hb Hea Heb La Lb.
  unfold fadd, fin, SFadd. cbn [cond_Zopp].
  set (ez := Z.min ea eb).
  assert (Hza : ez <= ea) by (unfold ez; lia).
  assert (Hzb : ez <= eb) by (unfold ez; lia).
  rewrite !shl_align_fst by assumption.
  rewrite (mant_pos _ Ha), (mant_pos _ Hb).
  destruct (scaled_le_one ma ea ez Ha La Hza) as [Ua Sa].
  destruct (scaled_le_one mb eb ez Hb Lb Hzb) as [Ub Sb].
  assert (HA : 0 < 2 ^ (ea - ez)) by (apply Z.pow_pos_nonneg; lia).
  assert (HB : 0 < 2 ^ (eb - ez)) by (apply Z.pow_pos_nonneg; lia).
  set (S := ma * 2 ^ (ea - ez) + mb * 2 ^ (eb - ez)) in *.
  assert (Hk : 0 <= -52 - ez) by (unfold le_one in *; lia).
  set (k := -52 - ez) in *.
  assert (HK : 0 < 2 ^ k) by (apply Z.pow_pos_nonneg; lia).
  assert (HS53 : 2 ^ 53 <= S) by (unfold S; pw; nia).
  destruct S as [|pS|pS] eqn:ES; try (pw; lia).
  cbn [binary_normalize].
  pose proof (digits_bounds pS) as HD.
  set (D := Zpos (digits2_pos pS)) in *.
  assert (HD54 : 54 <= D).
  { destruct (Z_lt_le_dec D 54); [|assumption].
    assert (2 ^ D <= 2 ^ 53) by (apply Z.pow_le_mono_r; lia). lia. }
  assert (HDk : D <= 54 + k).
  { destruct (Z_lt_le_dec (54 + k) D); [|lia].
    assert (2 ^ (54 + k) <= 2 ^ (D - 1)) by (apply Z.pow_le_mono_r; lia).
    rewrite pow2_split in H by lia. pw. nia. }
  rewrite binary_round_large by (fold D; lia).
  destruct (bra_cases false pS ez loc_Exact) as (m & e & Hbr & Hm & Hc);
    try (fold D; lia).
  fold D in Hc. rewrite Hbr.
  exists m, e. split; [reflexivity|]. split; [exact Hm|].
  destruct (Z.eq_dec D (54 + k)) as [E54|N54].
  - (* the sum is two *)
    assert (HSe : Z.pos pS = 2 ^ 52 * 2 ^ (D - 53)).
    { replace (D - 53) with (1 + k) by lia. rewrite pow2_split by lia.
      replace (D - 1) with (53 + k) in HD by lia.
      rewrite pow2_split in HD by lia. pw. nia. }
    assert (HP : 0 < 2 ^ (D - 53)) by (apply Z.pow_pos_nonneg; lia).
    assert (Hq0 : Z.pos pS / 2 ^ (D - 53) = 2 ^ 52)
      by (rewrite HSe; apply Z.div_mul; lia).
    assert (Hmod : Z.pos pS mod 2 ^ (D - 53) = 0)
      by (rewrite HSe; apply Z.mod_mul; lia).
    rewrite Hq0 in Hc.
    assert (Hstrict : ~ (ea <= -53 /\ eb <= -53)).
    { intros [Xa Xb]. specialize (Sa Xa). specialize (Sb Xb).
      replace (D - 53) with (1 + k) in HSe by lia.
      rewrite pow2_split in HSe by lia. pw. nia. }
    destruct Hc as [[-> ->] | [(-> & -> & Hne & _) | (-> & -> & Hc & _)]].
    + split; [lia|]. split; [right; split; [lia|reflexivity]|]. intros; lia.
    + exfalso. apply Hne. split; [reflexivity|assumption].
    + pw. lia.
  - assert (HD53 : D <= 53 + k) by lia.
    split; [destruct Hc as [[_ ->] | [(_ & -> & _) | (_ & -> & _)]]; lia|].
    destruct Hc as [[-> ->] | [(-> & -> & _) | (-> & -> & Hc & Hne & _)]].
    + split; [left; lia|intros; lia].
    + split; [left; lia|intros; lia].
    + split.
      * destruct (Z.eq_dec D (53 + k)); [right; split; [lia|reflexivity]|left; lia].
      * intros Xa Xb. specialize (Sa Xa). specialize (Sb Xb).
        destruct (Z.eq_dec D (53 + k)) as [E53|N53]; [|lia].
        exfalso. apply Hne. split; [reflexivity|].
        replace (D - 53) with k in * by lia.
        pose proof (Z.div_mod (Z.pos pS) (2 ^ k) ltac:(lia)) as Hdm.
        pose proof (Z.mod_pos_bound (Z.pos pS) (2 ^ k) ltac:(lia)) as Hmb.
        pw. nia.
Qed.

(** ** The square root of an int below 2^52 *)

Lemma sq_exp_bounds x :
  0 < x < 2 ^ 53 -> -52 <= sq_exp x <= -26 /\ (x < 2 ^ 52 -> sq_exp x <= -27).
Proof.
  intros Hx. unfold sq_exp.
  pose proof (Z.log2_nonneg x).
  assert (Z.log2 x < 53) by (apply Z.log2_lt_pow2; lia).
  pose proof (Z.div_mod (Z.log2 x + 1 - 53) 2 ltac:(lia)).
  pose proof (Z.mod_pos_bound (Z.log2 x + 1 - 53) 2 ltac:(lia)).
  split; [lia|]. intros Hx2.
  assert (Z.log2 x < 52) by (apply Z.log2_lt_pow2; lia). lia.
Qed.

Lemma math_sqrt_small x :
  0 < x < 2 ^ 53 ->
  math_sqrt x = Ok (fin (sq_mant x) (sq_exp x)) /\ mant (sq_mant x).
Proof.
  intros Hx. unfold math_sqrt.
  rewrite float_of_int_small by assumption. cbn [bind].
  pose proof (float_of_int_mant x Hx) as Hm.
  pose proof (Z.log2_nonneg x) as HL0.
  assert (HL : Z.log2 x < 53) by (apply Z.log2_lt_pow2; lia).
  set (L := Z.log2 x) in *.
  destruct (fsqrt_fin (x * 2 ^ (53 - (L + 1))) (L + 1 - 53) Hm ltac:(lia))
    as [Hs Hq].
  pose proof (sq_exp_bounds x Hx) as [He _]. unfold sq_exp in He. fold L in He.
  assert (EM : x * 2 ^ (53 - (L + 1)) *
               2 ^ (L + 1 - 53 - 2 * ((L + 1 - 53) / 2 - 26))
               = x * (sq_scale x * sq_scale x)).
  { unfold sq_scale, sq_exp. fold L. rewrite <- Z.mul_assoc. f_equal.
    rewrite <- !pow2_split by lia. f_equal. lia. }
  rewrite EM in Hs, Hq.
  change (mant (sq_mant x)) in Hq.
  split; [|exact Hq].
  unfold sqrt_float. rewrite Hs. unfold fin. reflexivity.
Qed.

Lemma sqrt_round_props x t :
  0 < x -> 0 < t ->
  let M := x * (t * t) in
  let q := Z.sqrt M in
  let qr := if M - q * q <=? q then q else q + 1 in
  q < t * t ->
  (forall j, qr = j * t -> x = j * j)
  /\ (forall k, 0 < k -> x = k * k -> qr = k * t)
  /\ (forall d m, 0 < d -> d * t <= qr -> m * d = x -> qr <= m * t).
Proof.
  intros Hx Ht M q qr Hq.
  assert (HT : 0 < t * t) by nia.
  assert (HM : 0 < M) by (unfold M; nia).
  pose proof (Z.sqrt_spec M ltac:(lia)) as Hs. cbv zeta in Hs. fold q in Hs.
  assert (Hq0 : 0 <= q) by (apply Z.sqrt_nonneg).
  replace (Z.succ q * Z.succ q) with (q * q + 2 * q + 1) in Hs by lia.
  assert (EMdef : M = x * (t * t)) by reflexivity.
  clearbody q. clearbody M.
  split; [|split].
  - intros j Hj. unfold qr in Hj.
    destruct (Z.leb_spec (M - q * q) q) as [Hle|Hgt].
    + assert (E : M - q * q = (x - j * j) * (t * t)) by (rewrite EMdef, Hj; ring).
      assert (0 <= (x - j * j) * (t * t)) by lia.
      assert ((x - j * j) * (t * t) < 1 * (t * t)) by lia.
      assert (x - j * j < 1) by (apply Z.mul_lt_mono_pos_r with (t * t); assumption).
      assert (0 <= x - j * j) by nia. lia.
    + exfalso.
      assert (E : (q + 1) * (q + 1) = j * j * (t * t)) by (rewrite Hj; ring).
      assert (x * (t * t) < j * j * (t * t)) by lia.
      assert (x < j * j) by (apply Z.mul_lt_mono_pos_r with (t * t); assumption).
      assert (x * (t * t) <= (j * j - 1) * (t * t))
        by (apply Z.mul_le_mono_nonneg_r; lia).
      lia.
  - intros k Hk Hxk. unfold qr.
    assert (Eq : Z.sqrt ((k * t) * (k * t)) = k * t) by (apply Z.sqrt_square; nia).
    assert (EM : M = (k * t) * (k * t)) by (rewrite EMdef, Hxk; ring).
    assert (Hqq : q * q <= (k * t) * (k * t) < (q + 1) * (q + 1)) by lia.
    assert (q = k * t) by nia.
    destruct (Z.leb_spec (M - q * q) q); nia.
  - intros d m Hd Hdt Hmd.
    destruct (Z_le_gt_dec qr (m * t)) as [|Hgt]; [assumption|exfalso].
    assert (0 < m) by nia.
    assert (E : M = (m * t) * (d * t)) by (rewrite EMdef, <- Hmd; ring).
    assert (0 < qr) by nia.
    assert (m * t <= qr - 1) by lia.
    assert ((m * t) * (d * t) <= (qr - 1) * qr) by (apply Z.mul_le_mono_nonneg; nia).
    unfold qr in *. destruct (Z.leb_spec (M - q * q) q); nia.
Qed.

Lemma sq_scale_pos x : 0 < x < 2 ^ 53 -> 2 ^ 26 <= sq_scale x <= 2 ^ 52.
Proof.
  intros Hx. destruct (sq_exp_bounds x Hx) as [He _]. unfold sq_scale.
  split; apply Z.pow_le_mono_r; lia.
Qed.

Lemma sq_scale_big x : 0 < x < 2 ^ 52 -> 2 ^ 27 <= sq_scale x.
Proof.
  intros Hx. destruct (sq_exp_bounds x ltac:(pw; lia)) as [He He2].
  specialize (He2 ltac:(lia)). unfold sq_scale.
  apply Z.pow_le_mono_r; lia.
Qed.

Lemma sq_props x :
  0 < x < 2 ^ 52 ->
  (forall j, sq_mant x = j * sq_scale x -> x = j * j)
  /\ (forall k, 0 < k -> x = k * k -> sq_mant x = k * sq_scale x)
  /\ (forall d m, 0 < d -> d * sq_scale x <= sq_mant x -> m * d = x ->
      sq_mant x <= m * sq_scale x).
Proof.
  intros Hx.
  pose proof (sq_scale_big x Hx) as Ht.
  destruct (math_sqrt_small x ltac:(pw; lia)) as [_ Hm].
  pose proof (sqrt_round_props x (sq_scale x) ltac:(lia) ltac:(pw; lia)) as H.
  cbv zeta in H. apply H. clear H.
  unfold sq_mant, mant in Hm.
  set (M := x * (sq_scale x * sq_scale x)) in *.
  set (q := Z.sqrt M) in *.
  assert (q < 2 ^ 53) by (destruct (Z.leb_spec (M - q * q) q); lia).
  pw. nia.
Qed.

(** ** is_square and the division of ints *)

Lemma int_of_float_fin m e :
  0 < m -> e <= 0 -> int_of_float (fin m e) = Ok (m / 2 ^ (- e)).
Proof.
  intros Hm He. unfold int_of_float, fin. cbn [cond_Zopp].
  rewrite Z2Pos.id by assumption. rewrite Z.shiftl_div_pow2 by assumption.
  reflexivity.
Qed.

Lemma math_floor_fin m e :
  0 < m -> e <= 0 -> math_floor (fin m e) = Ok (m / 2 ^ (- e)).
Proof.
  intros Hm He. unfold math_floor, fin. cbn [cond_Zopp].
  rewrite Z2Pos.id by assumption. rewrite Z.shiftl_div_pow2 by assumption.
  reflexivity.
Qed.

Lemma num_eqb_int_fin i m e :
  0 < m -> e < 0 -> num_eqb (Int i) (Float (fin m e)) = (i * 2 ^ (- e) =? m).
Proof.
  intros Hm He. unfold num_eqb, num_compare, compare_int_float, fin.
  cbn [cond_Zopp]. rewrite Z2Pos.id by assumption.
  destruct (Z.leb_spec 0 e); [lia|].
  destruct (Z.eqb_spec (i * 2 ^ (- e)) m) as [E|E].
  - rewrite E, Z.compare_refl. reflexivity.
  - destruct (Z.compare_spec (i * 2 ^ (- e)) m); try reflexivity. contradiction.
Qed.

Lemma is_square_small x :
  0 < x < 2 ^ 52 ->
  is_square x = Ok (sq_mant x / sq_scale x * sq_scale x =? sq_mant x).
Proof.
  intros Hx. unfold is_square.
  destruct (math_sqrt_small x ltac:(pw; lia)) as [Hs Hm].
  destruct (sq_exp_bounds x ltac:(pw; lia)) as [He _].
  rewrite Hs. cbn [bind].
  rewrite int_of_float_fin by (pw; lia). cbn [bind try_except].
  rewrite num_eqb_int_fin by (pw; lia). reflexivity.
Qed.

Lemma int_truediv_exact x d :
  0 < x < 2 ^ 53 -> 0 < d -> x mod d = 0 ->
  exists f, int_truediv x d = Ok f /\ int_of_float f = Ok (x / d).
Proof.
  intros Hx Hd Hmod. unfold int_truediv.
  destruct (Z.eqb_spec d 0); [lia|]. destruct (Z.eqb_spec x 0); [lia|].
  destruct (Z.ltb_spec x 0); [lia|]. destruct (Z.ltb_spec d 0); [lia|].
  cbn [xorb].
  rewrite (Z.abs_eq x), (Z.abs_eq d) by lia.
  destruct x as [|px|px]; try lia. destruct d as [|pd|pd]; try lia.
  set (y := Z.pos px / Z.pos pd).
  assert (Hy : Z.pos px = y * Z.pos pd).
  { pose proof (Z.div_mod (Z.pos px) (Z.pos pd) ltac:(lia)). fold y in H1. lia. }
  assert (Hy0 : 0 < y) by nia.
  unfold SFdiv_core_binary. cbn [Zdigits2].
  pose proof (digits_bounds px) as Bx. pose proof (digits_bounds pd) as Bd.
  set (Dx := Z.pos (digits2_pos px)) in *.
  set (Dd := Z.pos (digits2_pos pd)) in *.
  assert (HDx : 1 <= Dx <= 53).
  { split; [unfold Dx; lia|]. destruct (Z_lt_le_dec 53 Dx); [|lia].
    assert (2 ^ 53 <= 2 ^ (Dx - 1)) by (apply Z.pow_le_mono_r; lia). lia. }
  assert (HDd : 1 <= Dd <= Dx).
  { split; [unfold Dd; lia|]. destruct (Z_lt_le_dec Dx Dd); [|lia].
    assert (2 ^ Dx <= 2 ^ (Dd - 1)) by (apply Z.pow_le_mono_r; lia). nia. }
  rewrite !Z.add_0_r. rewrite fexp_eq by lia.
  replace (Z.min (Dx - Dd - 53) (0 - 0)) with (Dx - Dd - 53) by lia.
  replace (0 - 0 - (Dx - Dd - 53)) with (53 - Dx + Dd) by lia.
  set (s := 53 - Dx + Dd).
  assert (Hs : 1 <= s) by (unfold s; lia).
  assert (Hsh : match s with
                | 0 => Z.pos px | Z.pos _ => Z.shiftl (Z.pos px) s | Z.neg _ => 0
                end = y * 2 ^ s * Z.pos pd).
  { destruct s eqn:Es; try lia. rewrite Z.shiftl_mul_pow2 by lia. lia. }
  rewrite Hsh.
  assert (HS : 0 < 2 ^ s) by (apply Z.pow_pos_nonneg; lia).
  pose proof (Z.div_mul (y * 2 ^ s) (Z.pos pd) ltac:(lia)) as Hq.
  pose proof (Z.mod_mul (y * 2 ^ s) (Z.pos pd) ltac:(lia)) as Hr.
  unfold Z.div in Hq. unfold Z.modulo in Hr.
  destruct (Z.div_eucl (y * 2 ^ s * Z.pos pd) (Z.pos pd)) as [q r].
  subst q r.
  assert (Hloc : new_location (Z.pos pd) 0 = loc_Exact)
    by (apply new_location_exact; reflexivity).
  rewrite Hloc.
  (* the quotient has 53 or 54 bits *)
  assert (HPS : 2 ^ (Dx - 1) * 2 ^ s = 2 ^ 53 * 2 ^ (Dd - 1)).
  { rewrite <- !pow2_split by lia. f_equal. unfold s. lia. }
  assert (HPx : 2 ^ Dx = 2 * 2 ^ (Dx - 1)).
  { replace Dx with (1 + (Dx - 1)) at 1 by lia. rewrite pow2_split by lia. reflexivity. }
  assert (HPd : 2 ^ Dd = 2 * 2 ^ (Dd - 1)).
  { replace Dd with (1 + (Dd - 1)) at 1 by lia. rewrite pow2_split by lia. reflexivity. }
  assert (HQ : 0 < 2 ^ (Dd - 1)) by (apply Z.pow_pos_nonneg; lia).
  assert (Hqb : 2 ^ 52 <= y * 2 ^ s < 2 ^ 54).
  { rewrite HPx in Bx. rewrite HPd in Bd. pw.
    set (P := 2 ^ (Dx - 1)) in *. set (Q := 2 ^ (Dd - 1)) in *.
    set (S := 2 ^ s) in *.
    assert (E : Z.pos px * S = y * S * Z.pos pd) by nia.
    split; nia. }
  destruct (y * 2 ^ s) as [|pq|pq] eqn:Eq; try (pw; lia).
  pose proof (digits_bounds pq) as Bq.
  set (Dq := Z.pos (digits2_pos pq)) in *.
  assert (HDq : Dq = 53 \/ Dq = 54).
  { destruct (Z_lt_le_dec Dq 53).
    - assert (2 ^ Dq <= 2 ^ 52) by (apply Z.pow_le_mono_r; lia). lia.
    - destruct (Z_lt_le_dec 54 Dq); [|lia].
      assert (2 ^ 54 <= 2 ^ (Dq - 1)) by (apply Z.pow_le_mono_r; lia). lia. }
  destruct (bra_cases false pq (Dx - Dd - 53) loc_Exact) as (m & e & Hb & Hm & Hc);
    try (fold Dq; lia).
  fold Dq in Hc. rewrite Hb.
  assert (Hdiv2 : Z.pos pq mod 2 ^ (Dq - 53) = 0).
  { destruct HDq as [-> | ->].
    - change (2 ^ (53 - 53)) with 1. apply Z.mod_1_r.
    - change (2 ^ (54 - 53)) with 2. rewrite <- Eq.
      replace s with (1 + (s - 1)) by lia. rewrite pow2_split by lia.
      change (2 ^ 1) with 2.
      replace (y * (2 * 2 ^ (s - 1))) with (y * 2 ^ (s - 1) * 2) by lia.
      apply Z.mod_mul. lia. }
  eexists. split; [reflexivity|].
  destruct Hc as [[-> ->] | [(-> & -> & Hne & _) | (-> & -> & _ & Hne & _)]];
    try (exfalso; apply Hne; split; [reflexivity|exact Hdiv2]).
  fold (fin (Z.pos pq / 2 ^ (Dq - 53)) (Dx - Dd - 53 + (Dq - 53))).
  assert (HPn : 0 < 2 ^ (Dq - 53)) by (apply Z.pow_pos_nonneg; lia).
  rewrite int_of_float_fin; [|pw; lia|lia].
  f_equal. rewrite Z.div_div by (try lia; apply Z.pow_pos_nonneg; lia).
  rewrite <- pow2_split by lia.
  replace (Dq - 53 + - (Dx - Dd - 53 + (Dq - 53))) with s by (unfold s; lia).
  rewrite <- Eq. rewrite Z.div_mul by lia. reflexivity.
Qed.

(** ** squarish_factors below 2^52 *)

Lemma loop_spec x n :
  0 < x < 2 ^ 53 -> (1 <= n)%nat ->
  exists d, 1 <= d <= Z.of_nat n /\ x mod d = 0
            /\ squarish_factors_loop x n = Ok (x / d, d).
Proof.
  intros Hx. induction n as [|k IH]; intros Hn; [lia|].
  cbn [squarish_factors_loop]. unfold int_mod.
  destruct (Z.eqb_spec (Z.of_nat (S k)) 0); [lia|]. cbn [bind].
  destruct (Z.eqb_spec (x mod Z.of_nat (S k)) 0) as [E|E].
  - exists (Z.of_nat (S k)). split; [lia|]. split; [exact E|].
    destruct (int_truediv_exact x (Z.of_nat (S k)) Hx ltac:(lia) E) as (f & Hf & Hi).
    rewrite Hf. cbn [bind]. rewrite Hi. reflexivity.
  - destruct k as [|k'].
    + exfalso. apply E. change (Z.of_nat 1) with 1. apply Z.mod_1_r.
    + destruct (IH ltac:(lia)) as (d & Hd & Hm & Hl).
      exists d. split; [lia|]. split; assumption.
Qed.

(** The pair [squarish_factors] returns, for an [x] that [math.sqrt] takes
    without rounding the argument. *)
Lemma squarish_factors_small x :
  0 < x < 2 ^ 52 ->
  exists d,
    squarish_factors x = Ok (x / d, d) /\ 1 <= d /\ x mod d = 0
    /\ d * sq_scale x <= sq_mant x
    /\ (is_square x = Ok true -> d * sq_scale x = sq_mant x /\ x / d = d).
Proof.
  intros Hx. unfold squarish_factors.
  assert (Hx' : 0 < x < 2 ^ 53) by (pw; lia).
  rewrite is_square_small by assumption. cbn [bind].
  destruct (math_sqrt_small x Hx') as [Hs Hm].
  destruct (sq_exp_bounds x Hx') as [He _].
  pose proof (sq_scale_pos x Hx') as Ht.
  destruct (sq_props x Hx) as (Pa & Pb & Pc).
  assert (Ht0 : 0 < sq_scale x) by (pw; lia).
  pose proof (Z.div_mod (sq_mant x) (sq_scale x) ltac:(lia)) as Hdm.
  pose proof (Z.mod_pos_bound (sq_mant x) (sq_scale x) Ht0) as Hmb.
  set (j := sq_mant x / sq_scale x) in *.
  assert (Hj1 : 1 <= j).
  { assert (0 < j); [|lia]. apply Z.div_str_pos. pw. lia. }
  rewrite Hs. cbn [bind].
  destruct (Z.eqb_spec (j * sq_scale x) (sq_mant x)) as [E|E].
  - rewrite int_of_float_fin by (pw; lia). cbn [bind].
    fold (sq_scale x). fold j.
    assert (Hxj : x = j * j) by (apply Pa; lia).
    assert (Hdiv : x / j = j) by (rewrite Hxj; apply Z.div_mul; lia).
    exists j. rewrite Hdiv. split; [reflexivity|]. split; [lia|].
    split; [rewrite Hxj; apply Z.mod_mul; lia|].
    split; [lia|]. intros _. split; [exact E|reflexivity].
  - rewrite math_floor_fin by (pw; lia). cbn [bind].
    fold (sq_scale x). fold j.
    destruct (loop_spec x (Z.to_nat j) Hx' ltac:(lia)) as (d & Hd & Hmod & Hl).
    exists d. split; [exact Hl|]. split; [lia|]. split; [exact Hmod|].
    split; [nia|]. intros Habs. injection Habs as Habs. discriminate.
Qed.

(** Order on full-mantissa numbers from the order of their values *)
Lemma lex_le_of_scaled m1 e1 m2 e2 :
  mant m1 -> mant m2 -> e1 <= 0 -> e2 <= 0 ->
  m1 * 2 ^ (- e2) <= m2 * 2 ^ (- e1) ->
  e1 < e2 \/ (e1 = e2 /\ m1 <= m2).
Proof.
  intros H1 H2 He1 He2 H.
  destruct (Z.lt_trichotomy e1 e2) as [Hlt|[Heq|Hgt]]; [left; assumption| |].
  - right. split; [assumption|]. subst e2.
    assert (0 < 2 ^ (- e1)) by (apply Z.pow_pos_nonneg; lia). nia.
  - exfalso.
    assert (E : 2 ^ (- e2) = 2 ^ (e1 - e2) * 2 ^ (- e1))
      by (rewrite <- pow2_split by lia; f_equal; lia).
    assert (0 < 2 ^ (- e1)) by (apply Z.pow_pos_nonneg; lia).
    assert (2 ^ 1 <= 2 ^ (e1 - e2)) by (apply Z.pow_le_mono_r; lia).
    rewrite E in H. pw. nia.
Qed.

Lemma lex_lt_of_scaled m1 e1 m2 e2 :
  mant m1 -> mant m2 -> e1 <= 0 -> e2 <= 0 ->
  m1 * 2 ^ (- e2) < m2 * 2 ^ (- e1) ->
  e1 < e2 \/ (e1 = e2 /\ m1 < m2).
Proof.
  intros H1 H2 He1 He2 H.
  destruct (lex_le_of_scaled m1 e1 m2 e2 H1 H2 He1 He2 ltac:(lia)) as [|[E Hm]];
    [left; assumption|].
  right. split; [assumption|]. subst e2.
  destruct (Z.eq_dec m1 m2); [subst; lia|lia].
Qed.

(** [float(n)] as a full-mantissa number of value [n] *)
Lemma float_of_int_fin n :
  0 < n < 2 ^ 53 ->
  exists m e, float_of_int n = Ok (fin m e) /\ mant m /\ -52 <= e <= 0
              /\ n * 2 ^ (- e) = m.
Proof.
  intros Hn. exists (n * 2 ^ (53 - (Z.log2 n + 1))), (Z.log2 n + 1 - 53).
  split; [apply float_of_int_small; assumption|].
  split; [apply float_of_int_mant; assumption|].
  pose proof (Z.log2_nonneg n).
  assert (Z.log2 n < 53) by (apply Z.log2_lt_pow2; lia).
  split; [lia|]. f_equal. f_equal. lia.
Qed.

(** ** squareness below 2^52 *)

Lemma float_of_int_two : float_of_int 2 = Ok (fin (2 ^ 52) (-51)).
Proof. vm_compute. reflexivity. Qed.

Lemma squareness_small x :
  0 < x < 2 ^ 52 ->
  exists m e,
    squareness x = Ok (Float (fin m e)) /\ mant m /\ -300 <= e
    /\ ((is_square x = Ok true /\ m = 2 ^ 52 /\ e = -52)
        \/ (is_square x = Ok false /\ e <= -53)).
Proof.
  intros Hx.
  assert (Hx' : 0 < x < 2 ^ 53) by (pw; lia).
  destruct (squarish_factors_small x Hx) as (d & Hsf & Hd & Hmod & Hdt & Hsq).
  destruct (math_sqrt_small x Hx') as [Hs Hm].
  destruct (sq_exp_bounds x Hx') as [He _].
  pose proof (sq_scale_pos x Hx') as Ht.
  destruct (sq_props x Hx) as (Pa & Pb & Pc).
  pose proof (is_square_small x Hx) as His.
  set (t := sq_scale x) in *. set (qr := sq_mant x) in *.
  set (e' := sq_exp x) in *.
  assert (Et : t = 2 ^ (- e')) by reflexivity.
  assert (Ht0 : 0 < t) by (pw; lia).
  assert (Hxd : x / d * d = x).
  { pose proof (Z.div_mod x d ltac:(lia)). lia. }
  set (y := x / d) in *.
  assert (Hy : 0 < y < 2 ^ 53) by (pw; nia).
  assert (Hqy : qr <= y * t) by (apply (Pc d y); lia).
  unfold squareness. destruct (Z.eqb_spec x 0); [lia|].
  rewrite Hs, Hsf. cbn [bind].
  destruct (float_of_int_fin y Hy) as (mm & em & Hfy & Hmm & Hem & Evy).
  destruct (float_of_int_fin d ltac:(pw; nia)) as (nm & en & Hfd & Hnm & Hen & Evd).
  rewrite Hfy. cbn [bind]. unfold float_truediv at 1. cbn [is_zero fin].
  fold (fin qr e'). fold (fin mm em). cbn [bind].
  rewrite Hfd. cbn [bind]. unfold float_truediv at 1. cbn [is_zero fin].
  fold (fin qr e'). fold (fin mm em). fold (fin nm en). cbn [bind].
  rewrite float_of_int_two. cbn [bind].
  assert (HEm : 0 < 2 ^ (- em)) by (apply Z.pow_pos_nonneg; lia).
  assert (HEn : 0 < 2 ^ (- en)) by (apply Z.pow_pos_nonneg; lia).
  (* sr <= float(m) and float(n) <= sr *)
  assert (La : qr * 2 ^ (- em) <= mm * 2 ^ (- e')).
  { rewrite <- Et, <- Evy.
    replace (y * 2 ^ (- em) * t) with (y * t * 2 ^ (- em)) by lia.
    apply Z.mul_le_mono_nonneg_r; lia. }
  assert (Lb : nm * 2 ^ (- e') <= qr * 2 ^ (- en)).
  { rewrite <- Et, <- Evd.
    replace (d * 2 ^ (- en) * t) with (d * t * 2 ^ (- en)) by lia.
    apply Z.mul_le_mono_nonneg_r; lia. }
  pose proof (lex_le_of_scaled qr e' mm em Hm Hmm ltac:(lia) ltac:(lia) La) as Xa.
  pose proof (lex_le_of_scaled nm en qr e' Hnm Hm ltac:(lia) ltac:(lia) Lb) as Xb.
  destruct (fdiv_le qr e' mm em Hm Hmm ltac:(lia) Xa) as (am & ae & Ha & Ham & Hae & Ca).
  destruct (fdiv_le nm en qr e' Hnm Hm ltac:(lia) Xb) as (bm & be & Hb & Hbm & Hbe & Cb).
  rewrite Ha, Hb.
  assert (L1 : le_one am ae) by (unfold le_one; lia).
  assert (L2 : le_one bm be) by (unfold le_one; lia).
  destruct (fadd_le am ae bm be Ham Hbm ltac:(lia) ltac:(lia) L1 L2)
    as (sm & se & Hadd & Hsm & Hse & Cs & Cstrict).
  rewrite Hadd. unfold float_truediv. cbn [is_zero fin].
  fold (fin sm se). fold (fin (2 ^ 52) (-51)). cbn [bind].
  rewrite fdiv_two by (try assumption; lia).
  exists sm, (se - 1). split; [reflexivity|]. split; [assumption|].
  split; [lia|].
  destruct (Z.eqb_spec (qr / t * t) qr) as [E|E].
  - (* a perfect square: both quotients are one *)
    left. split; [exact His|].
    destruct (Hsq His) as [Hdq Hyd].
    assert (Ey : y * t = qr) by (rewrite Hyd; exact Hdq).
    assert (La' : mm * 2 ^ (- e') <= qr * 2 ^ (- em))
      by (rewrite <- Et, <- Evy, <- Ey; lia).
    assert (Lb' : qr * 2 ^ (- en) <= nm * 2 ^ (- e'))
      by (rewrite <- Et, <- Evd, <- Hdq; lia).
    pose proof (lex_le_of_scaled mm em qr e' Hmm Hm ltac:(lia) ltac:(lia) La') as Xa'.
    pose proof (lex_le_of_scaled qr e' nm en Hm Hnm ltac:(lia) ltac:(lia) Lb') as Xb'.
    assert (Eqa : e' = em /\ qr = mm) by (clear - Xa Xa'; lia).
    assert (Eqb : en = e' /\ nm = qr) by (clear - Xb Xb'; lia).
    assert (Ea : ae = -52 /\ am = 2 ^ 52).
    { destruct Ca as [[_ Hn]|(? & ? & _)]; [exfalso; apply Hn; exact Eqa|split; assumption]. }
    assert (Eb : be = -52 /\ bm = 2 ^ 52).
    { destruct Cb as [[_ Hn]|(? & ? & _)]; [exfalso; apply Hn; exact Eqb|split; assumption]. }
    destruct Ea as [-> ->]. destruct Eb as [-> ->].
    assert (Hone : fadd (fin (2 ^ 52) (-52)) (fin (2 ^ 52) (-52)) = fin (2 ^ 52) (-51))
      by (vm_compute; reflexivity).
    rewrite Hone in Hadd. unfold fin in Hadd.
    injection Hadd as E1 E2.
    apply (f_equal Zpos) in E1.
    rewrite (mant_pos _ Hsm) in E1.
    split; [symmetry; exact E1|lia].
  - right. split; [exact His|].
    assert (Nd : d * t <> qr).
    { intros Habs. apply E. rewrite <- Habs. rewrite Z.div_mul by lia. reflexivity. }
    assert (Ny : y * t <> qr).
    { intros Habs. apply E. rewrite <- Habs. rewrite Z.div_mul by lia. reflexivity. }
    assert (Hqy' : qr < y * t) by lia.
    assert (Hdt' : d * t < qr) by lia.
    assert (La' : qr * 2 ^ (- em) < mm * 2 ^ (- e')).
    { rewrite <- Et, <- Evy.
      replace (y * 2 ^ (- em) * t) with (y * t * 2 ^ (- em)) by lia.
      apply Z.mul_lt_mono_pos_r; assumption. }
    assert (Lb' : nm * 2 ^ (- e') < qr * 2 ^ (- en)).
    { rewrite <- Et, <- Evd.
      replace (d * 2 ^ (- en) * t) with (d * t * 2 ^ (- en)) by lia.
      apply Z.mul_lt_mono_pos_r; assumption. }
    pose proof (lex_lt_of_scaled qr e' mm em Hm Hmm ltac:(lia) ltac:(lia) La') as Xa'.
    pose proof (lex_lt_of_scaled nm en qr e' Hnm Hm ltac:(lia) ltac:(lia) Lb') as Xb'.
    assert (Hae' : ae <= -53) by (clear - Ca Xa'; lia).
    assert (Hbe' : be <= -53) by (clear - Cb Xb'; lia).
    specialize (Cstrict Hae' Hbe'). lia.
Qed.

(** ** Ints of any size *)

(** Rounding a mantissa of 53 bits or more gives a full mantissa, or
    overflows. *)
Lemma bra_pack sx (mx : positive) ex lx :
  let D := Zpos (digits2_pos mx) in
  53 <= D -> -1074 <= ex + (D - 53) ->
  exists m e,
    binary_round_aux prec emax sx (Zpos mx) ex lx = pack sx (m, e)
    /\ mant m /\ ex + (D - 53) <= e <= ex + (D - 53) + 1.
Proof.
  intros D HD He.
  destruct (bra_spec sx mx ex lx HD He) as (l' & Hb & _).
  fold D in Hb.
  pose proof (top_bits (Zpos mx) D HD (digits_bounds mx)) as Hq.
  pose proof (round_nearest_even_bounds (Z.pos mx / 2 ^ (D - 53)) l') as Hr.
  rewrite Hb. unfold norm53.
  destruct (Z.eqb_spec (round_nearest_even (Z.pos mx / 2 ^ (D - 53)) l') (2 ^ 53)).
  - eexists _, _. split; [reflexivity|]. split; [pw; lia|lia].
  - eexists _, _. split; [reflexivity|]. split; [pw; lia|lia].
Qed.

(** [float(x)] of a non-zero int is a full-mantissa number of the sign of
    [x], or does not fit. *)
Lemma float_of_int_cases x :
  x <> 0 ->
  (float_of_int x = Raise OverflowError /\ 2 ^ 1023 <= Z.abs x)
  \/ exists m e, float_of_int x = Ok (S754_finite (x <? 0) (Z.to_pos m) e)
                 /\ mant m /\ -52 <= e <= 971.
Proof.
  intros Hx. unfold float_of_int.
  assert (H : forall s p,
    (match binary_round prec emax s p 0 with
     | S754_infinity _ => Raise OverflowError
     | f => Ok f end = Raise OverflowError /\ 2 ^ 1023 <= Z.pos p)
    \/ exists m e,
       match binary_round prec emax s p 0 with
       | S754_infinity _ => Raise OverflowError
       | f => Ok f end = Ok (S754_finite s (Z.to_pos m) e)
       /\ mant m /\ -52 <= e <= 971).
  { intros s p. pose proof (digits_bounds p) as Hb.
    set (D := Z.pos (digits2_pos p)) in *.
    assert (HD1 : 1 <= D) by (unfold D; lia).
    destruct (Z_le_gt_dec D 53) as [Hs|Hl].
    - right. rewrite binary_round_small by (fold D; lia). fold D.
      eexists _, _. split; [reflexivity|]. split; [|lia].
      unfold mant.
      assert (E1 : 2 ^ 52 = 2 ^ (D - 1) * 2 ^ (53 - D))
        by (rewrite <- pow2_split by lia; f_equal; lia).
      assert (E2 : 2 ^ 53 = 2 ^ D * 2 ^ (53 - D))
        by (rewrite <- pow2_split by lia; f_equal; lia).
      rewrite E1, E2.
      assert (0 < 2 ^ (53 - D)) by (apply Z.pow_pos_nonneg; lia).
      split; [apply Z.mul_le_mono_nonneg_r | apply Z.mul_lt_mono_pos_r]; lia.
    - rewrite binary_round_large by (fold D; lia).
      destruct (bra_pack s p 0 loc_Exact) as (m & e & Hb' & Hm & He);
        try (fold D; lia).
      fold D in He. rewrite Hb'. unfold pack. cbn [fst snd].
      destruct (Z.leb_spec e 971).
      + right. exists m, e. split; [reflexivity|]. split; [assumption|lia].
      + left. split; [reflexivity|].
        assert (1024 <= D) by lia.
        assert (2 ^ 1023 <= 2 ^ (D - 1)) by (apply Z.pow_le_mono_r; lia). lia. }
  destruct x as [|p|p]; [contradiction| |].
  - cbn [binary_normalize]. destruct (H false p) as [[E B]|E]; [left|right].
    + split; [exact E|]. simpl Z.abs. exact B.
    + exact E.
  - cbn [binary_normalize]. destruct (H true p) as [[E B]|E]; [left|right].
    + split; [exact E|]. simpl Z.abs. exact B.
    + exact E.
Qed.

Lemma is_square_negative x :
  x < 0 ->
  (is_square x = Raise OverflowError /\ math_sqrt x = Raise OverflowError
   /\ x <= - 2 ^ 1023)
  \/ (is_square x = Ok false /\ math_sqrt x = Raise ValueError).
Proof.
  intros Hx. unfold is_square, math_sqrt.
  destruct (float_of_int_cases x ltac:(lia)) as [[E B]|(m & e & E & Hm & He)].
  - left. rewrite E. cbn. repeat split. lia.
  - right. rewrite E. destruct (Z.ltb_spec x 0); [|lia]. cbn. split; reflexivity.
Qed.

Lemma squarish_factors_negative x :
  x < 0 ->
  (squarish_factors x = Raise OverflowError /\ x <= - 2 ^ 1023)
  \/ squarish_factors x = Raise ValueError.
Proof.
  intros Hx. unfold squarish_factors.
  destruct (is_square_negative x Hx) as [(E1 & E2 & B)|[E1 E2]]; rewrite E1.
  - left. split; [reflexivity|exact B].
  - right. cbn [bind]. rewrite E2. reflexivity.
Qed.

(** The square root of an int of at least one is a float of at least one. *)
Lemma math_sqrt_floor_pos x :
  1 <= x ->
  (math_sqrt x = Raise OverflowError /\ 2 ^ 1023 <= x)
  \/ exists s i n, math_sqrt x = Ok s /\ int_of_float s = Ok i
                   /\ math_floor s = Ok n /\ 1 <= n.
Proof.
  intros Hx. unfold math_sqrt.
  destruct (float_of_int_cases x ltac:(lia)) as [[E B]|(m & e & E & Hm & He)].
  - left. rewrite E. split; [reflexivity|lia].
  - right. rewrite E. destruct (Z.ltb_spec x 0); [lia|]. cbn [bind].
    destruct (fsqrt_fin m e Hm ltac:(lia)) as [Hs Hq].
    set (e' := e / 2 - 26) in *.
    set (qr := if m * 2 ^ (e - 2 * e') - Z.sqrt (m * 2 ^ (e - 2 * e')) *
                  Z.sqrt (m * 2 ^ (e - 2 * e')) <=? Z.sqrt (m * 2 ^ (e - 2 * e'))
               then Z.sqrt (m * 2 ^ (e - 2 * e'))
               else Z.sqrt (m * 2 ^ (e - 2 * e')) + 1) in *.
    assert (He' : -52 <= e').
    { unfold e'. pose proof (Z.div_mod e 2 ltac:(lia)).
      pose proof (Z.mod_pos_bound e 2 ltac:(lia)). lia. }
    fold (fin m e). unfold sqrt_float. unfold fin at 1. rewrite Hs.
    exists (fin qr e'). unfold fin at 1.
    eexists _, _. split; [reflexivity|]. unfold fin.
    cbn [int_of_float math_floor cond_Zopp].
    split; [reflexivity|]. split; [reflexivity|].
    rewrite (mant_pos _ Hq).
    destruct (Z_le_gt_dec 0 e').
    + rewrite Z.shiftl_mul_pow2 by lia.
      assert (0 < 2 ^ e') by (apply Z.pow_pos_nonneg; lia). pw. nia.
    + rewrite Z.shiftl_div_pow2 by lia.
      assert (2 ^ (- e') <= 2 ^ 52) by (apply Z.pow_le_mono_r; lia).
      assert (0 < 2 ^ (- e')) by (apply Z.pow_pos_nonneg; lia).
      apply Z.div_le_lower_bound; pw; lia.
Qed.

(** ** Comparison of the values of squareness *)

Lemma rank_fin m e : mant m -> rank (Float (fin m e)) = m * 2 ^ (e + 1074).
Proof. intros Hm. unfold rank, fin. cbn [cond_Zopp]. rewrite (mant_pos _ Hm). reflexivity. Qed.

Lemma compare_scale a b c : 0 < c -> (a * c ?= b * c) = (a ?= b).
Proof.
  intros Hc. destruct (Z.compare_spec a b) as [E|E|E].
  - subst. apply Z.compare_refl.
  - apply Z.compare_lt_iff. apply Z.mul_lt_mono_pos_r; assumption.
  - apply Z.compare_gt_iff. apply Z.mul_lt_mono_pos_r; assumption.
Qed.

Lemma fin_compare m1 e1 m2 e2 :
  mant m1 -> mant m2 -> -1074 <= e1 -> -1074 <= e2 ->
  SFcompare (fin m1 e1) (fin m2 e2)
  = Some (m1 * 2 ^ (e1 + 1074) ?= m2 * 2 ^ (e2 + 1074)).
Proof.
  intros H1 H2 He1 He2. unfold fin, SFcompare. f_equal.
  assert (P1 : 0 < 2 ^ (e1 + 1074)) by (apply Z.pow_pos_nonneg; lia).
  assert (P2 : 0 < 2 ^ (e2 + 1074)) by (apply Z.pow_pos_nonneg; lia).
  destruct (Z.compare_spec e1 e2) as [E|E|E].
  - subst e2. rewrite compare_scale by assumption.
    rewrite <- (mant_pos _ H1), <- (mant_pos _ H2) at 2. reflexivity.
  - symmetry. apply Z.compare_lt_iff.
    assert (E2 : 2 ^ (e2 + 1074) = 2 ^ (e2 - e1) * 2 ^ (e1 + 1074))
      by (rewrite <- pow2_split by lia; f_equal; lia).
    assert (2 ^ 1 <= 2 ^ (e2 - e1)) by (apply Z.pow_le_mono_r; lia).
    rewrite E2. pw. nia.
  - symmetry. apply Z.compare_gt_iff.
    assert (E2 : 2 ^ (e1 + 1074) = 2 ^ (e1 - e2) * 2 ^ (e2 + 1074))
      by (rewrite <- pow2_split by lia; f_equal; lia).
    assert (2 ^ 1 <= 2 ^ (e1 - e2)) by (apply Z.pow_le_mono_r; lia).
    rewrite E2. pw. nia.
Qed.

Lemma int_fin_compare z m e :
  mant m -> -1074 <= e <= 0 ->
  compare_int_float z (fin m e) = Some (z * 2 ^ 1074 ?= m * 2 ^ (e + 1074)).
Proof.
  intros Hm He. unfold compare_int_float, fin. cbn [cond_Zopp].
  rewrite (mant_pos _ Hm). f_equal.
  assert (P : 0 < 2 ^ (e + 1074)) by (apply Z.pow_pos_nonneg; lia).
  destruct (Z.leb_spec 0 e).
  - assert (e = 0) by lia. subst e. change (2 ^ 0) with 1.
    change (0 + 1074) with 1074. rewrite Z.mul_1_r.
    symmetry. apply compare_scale. assumption.
  - assert (E : 2 ^ 1074 = 2 ^ (- e) * 2 ^ (e + 1074))
      by (rewrite <- pow2_split by lia; f_equal; lia).
    rewrite E, Z.mul_assoc. symmetry. apply compare_scale. assumption.
Qed.

(** On the values [squareness] takes, Python's comparison is the comparison
    of the exact values. *)
Lemma num_compare_rank a b :
  good a -> good b -> num_compare a b = Some (rank a ?= rank b).
Proof.
  intros [->|(m1 & e1 & -> & H1 & He1)] [->|(m2 & e2 & -> & H2 & He2)].
  - cbn [num_compare rank].
    assert (P : 0 < 2 ^ 1074) by (apply Z.pow_pos_nonneg; lia).
    rewrite compare_scale by assumption. reflexivity.
  - cbn [num_compare]. rewrite rank_fin by assumption.
    rewrite int_fin_compare by assumption. reflexivity.
  - cbn [num_compare]. rewrite rank_fin by assumption.
    rewrite int_fin_compare by assumption. cbn [option_map]. f_equal.
    cbn [rank]. symmetry. apply Z.compare_antisym.
  - cbn [num_compare]. rewrite !rank_fin by assumption.
    apply fin_compare; try assumption; lia.
Qed.

Lemma num_gtb_rank a b : good a -> good b -> num_gtb a b = (rank b <? rank a).
Proof.
  intros Ha Hb. unfold num_gtb, num_ltb. rewrite num_compare_rank by assumption.
  unfold Z.ltb. destruct (rank b ?= rank a); reflexivity.
Qed.

Lemma num_ltb_rank a b : good a -> good b -> num_ltb a b = (rank a <? rank b).
Proof. intros Ha Hb. rewrite <- num_gtb_rank by assumption. reflexivity. Qed.

Lemma num_eqb_rank a b : good a -> good b -> num_eqb a b = (rank a =? rank b).
Proof.
  intros Ha Hb. unfold num_eqb. rewrite num_compare_rank by assumption.
  rewrite Z.eqb_compare. reflexivity.
Qed.

Lemma num_leb_rank a b : good a -> good b -> num_leb a b = (rank a <=? rank b).
Proof.
  intros Ha Hb. unfold num_leb. rewrite num_compare_rank by assumption.
  unfold Z.leb. destruct (rank a ?= rank b); reflexivity.
Qed.

Lemma is_square_zero : is_square 0 = Ok true.
Proof. vm_compute. reflexivity. Qed.

Lemma squareness_zero : squareness 0 = Ok (Int 1).
Proof. reflexivity. Qed.

(** [squareness] on the ints whose square root is computed without rounding
    the argument *)
Lemma squareness_good x :
  0 <= x < 2 ^ 52 ->
  exists v b,
    squareness x = Ok v /\ is_square x = Ok b /\ good v
    /\ 0 < rank v <= 2 ^ 1074
    /\ (b = true <-> rank v = 2 ^ 1074)
    /\ (x = 0 -> v = Int 1)
    /\ (0 < x -> b = true -> v = Float float_one).
Proof.
  intros Hx.
  assert (P : 0 < 2 ^ 1074) by (apply Z.pow_pos_nonneg; lia).
  destruct (Z.eq_dec x 0) as [->|Hn].
  - exists (Int 1), true. split; [reflexivity|]. split; [exact is_square_zero|].
    split; [left; reflexivity|]. cbn [rank]. split; [lia|].
    split; [split; intros; [lia|reflexivity]|]. split; [reflexivity|lia].
  - destruct (squareness_small x ltac:(lia)) as (m & e & Hs & Hm & He & Hc).
    assert (E52 : 2 ^ 1074 = 2 ^ 52 * 2 ^ 1022)
      by (rewrite <- pow2_split by lia; reflexivity).
    destruct Hc as [(Hq & -> & ->)|(Hq & He53)].
    + exists (Float (fin (2 ^ 52) (-52))), true.
      split; [exact Hs|]. split; [exact Hq|].
      split; [right; exists (2 ^ 52), (-52); split; [reflexivity|split; [assumption|lia]]|].
      rewrite rank_fin by assumption. change (-52 + 1074) with 1022.
      split; [lia|]. split; [split; intros; [lia|reflexivity]|].
      split; [lia|]. intros _ _. reflexivity.
    + exists (Float (fin m e)), false.
      split; [exact Hs|]. split; [exact Hq|].
      split; [right; exists m, e; split; [reflexivity|split; [assumption|lia]]|].
      rewrite rank_fin by assumption.
      assert (Pe : 0 < 2 ^ (e + 1074)) by (apply Z.pow_pos_nonneg; lia).
      assert (E : 2 ^ 1022 = 2 ^ (-52 - e) * 2 ^ (e + 1074))
        by (rewrite <- pow2_split by lia; f_equal; lia).
      assert (2 ^ 1 <= 2 ^ (-52 - e)) by (apply Z.pow_le_mono_r; lia).
      assert (H1 : m * 2 ^ (e + 1074) < 2 ^ 53 * 2 ^ (e + 1074))
        by (apply Z.mul_lt_mono_pos_r; [assumption|pw; lia]).
      assert (H2 : 2 ^ 1 * 2 ^ (e + 1074) <= 2 ^ (-52 - e) * 2 ^ (e + 1074))
        by (apply Z.mul_le_mono_nonneg_r; lia).
      assert (H3 : 0 < m * 2 ^ (e + 1074)) by (apply Z.mul_pos_pos; [pw; lia|assumption]).
      assert (Hlt : m * 2 ^ (e + 1074) < 2 ^ 1074) by (rewrite E52, E; pw; lia).
      split; [lia|]. split; [split; intros; [discriminate|lia]|].
      split; [lia|]. intros _ Habs. discriminate.
Qed.

(** ** sorted, max and the selectors *)

Lemma score_of_good x :
  0 <= x < 2 ^ 52 ->
  squareness x = Ok (score_of x) /\ good (score_of x)
  /\ 0 < fitness x <= 2 ^ 1074
  /\ (is_square_b x = true <-> fitness x = 2 ^ 1074)
  /\ is_square x = Ok (is_square_b x).
Proof.
  intros Hx. destruct (squareness_good x Hx) as (v & b & Hs & Hq & Hg & Hr & Hb & _).
  unfold fitness, score_of, is_square_b. rewrite Hs, Hq.
  split; [reflexivity|]. split; [assumption|]. split; [assumption|].
  destruct b.
  - split; [split; intros _; [apply Hb; reflexivity|reflexivity]|reflexivity].
  - split; [split; intros H; [discriminate|apply Hb in H; discriminate]|reflexivity].
Qed.

Lemma fit_le_iff x y :
  0 <= x < 2 ^ 52 -> 0 <= y < 2 ^ 52 -> (fit_le x y <-> fitness x <= fitness y).
Proof.
  intros Hx Hy.
  destruct (score_of_good x Hx) as (Sx & Gx & _).
  destruct (score_of_good y Hy) as (Sy & Gy & _).
  unfold fit_le, fitness. split.
  - intros (vx & vy & E1 & E2 & H). rewrite Sx in E1. rewrite Sy in E2.
    injection E1 as <-. injection E2 as <-.
    rewrite num_leb_rank in H by assumption. apply Z.leb_le. exact H.
  - intros H. exists (score_of x), (score_of y). split; [exact Sx|].
    split; [exact Sy|]. rewrite num_leb_rank by assumption. apply Z.leb_le. exact H.
Qed.

Lemma fit_lt_iff x y :
  0 <= x < 2 ^ 52 -> 0 <= y < 2 ^ 52 -> (fit_lt x y <-> fitness x < fitness y).
Proof.
  intros Hx Hy.
  destruct (score_of_good x Hx) as (Sx & Gx & _).
  destruct (score_of_good y Hy) as (Sy & Gy & _).
  unfold fit_lt, fitness. split.
  - intros (vx & vy & E1 & E2 & H). rewrite Sx in E1. rewrite Sy in E2.
    injection E1 as <-. injection E2 as <-.
    rewrite num_ltb_rank in H by assumption. apply Z.ltb_lt. exact H.
  - intros H. exists (score_of x), (score_of y). split; [exact Sx|].
    split; [exact Sy|]. rewrite num_ltb_rank by assumption. apply Z.ltb_lt. exact H.
Qed.

Lemma fit_eq_iff x y :
  0 <= x < 2 ^ 52 -> 0 <= y < 2 ^ 52 -> (fit_eq x y <-> fitness x = fitness y).
Proof.
  intros Hx Hy.
  destruct (score_of_good x Hx) as (Sx & Gx & _).
  destruct (score_of_good y Hy) as (Sy & Gy & _).
  unfold fit_eq, fitness. split.
  - intros (vx & vy & E1 & E2 & H). rewrite Sx in E1. rewrite Sy in E2.
    injection E1 as <-. injection E2 as <-.
    rewrite num_eqb_rank in H by assumption. apply Z.eqb_eq. exact H.
  - intros H. exists (score_of x), (score_of y). split; [exact Sx|].
    split; [exact Sy|]. rewrite num_eqb_rank by assumption. apply Z.eqb_eq. exact H.
Qed.

Lemma comprehension_if_filter c :
  small c -> comprehension_if is_square c = Ok (filter is_square_b c).
Proof.
  induction c as [|x xs IH]; intros Hc; [reflexivity|].
  cbn [comprehension_if filter].
  destruct (score_of_good x (Hc x (or_introl eq_refl))) as (_ & _ & _ & _ & Hq).
  rewrite Hq. cbn [bind]. rewrite IH by (intros y Hy; apply Hc; right; exact Hy).
  cbn [bind]. reflexivity.
Qed.

(** The first item of a numerically sorted list is its least item, or its
    greatest when the sort is reversed. *)
Lemma sorted_head l b :
  l <> [] ->
  exists y, item0 (sorted l None b) = Ok y /\ In y l
            /\ forall x, In x l -> if b then x <= y else y <= x.
Proof.
  induction l as [|x l' IH]; intros Hl; [contradiction|].
  unfold sorted. cbn [fold_right].
  destruct l' as [|x' l''].
  - exists x. cbn. split; [reflexivity|]. split; [left; reflexivity|].
    intros z [<-|[]]. destruct b; lia.
  - destruct (IH ltac:(discriminate)) as (y & Hy & Hin & Hmin).
    unfold sorted in Hy.
    destruct (fold_right (insert_by (fun x => x) b) [] (x' :: l'')) as [|h t] eqn:E;
      [discriminate|].
    cbn [item0] in Hy. injection Hy as ->.
    cbn [insert_by].
    destruct b.
    + destruct (Z.leb_spec y x).
      * exists x. split; [reflexivity|]. split; [left; reflexivity|].
        intros z [<-|Hz]; [lia|]. specialize (Hmin z Hz). cbn in Hmin. lia.
      * exists y. split; [reflexivity|]. split; [right; exact Hin|].
        intros z [<-|Hz]; [lia|]. exact (Hmin z Hz).
    + destruct (Z.leb_spec x y).
      * exists x. split; [reflexivity|]. split; [left; reflexivity|].
        intros z [<-|Hz]; [lia|]. specialize (Hmin z Hz). cbn in Hmin. lia.
      * exists y. split; [reflexivity|]. split; [right; exact Hin|].
        intros z [<-|Hz]; [lia|]. exact (Hmin z Hz).
Qed.

(** [max] with a key keeps the first item of the greatest key. *)
Lemma max_loop_spec l best :
  small l -> 0 <= best < 2 ^ 52 ->
  exists y,
    max_loop squareness best (score_of best) l = Ok y
    /\ ((y = best /\ forall x, In x l -> fitness x <= fitness best)
        \/ exists l1 l2, l = l1 ++ y :: l2 /\ fitness best < fitness y
             /\ (forall x, In x l1 -> fitness x < fitness y)
             /\ (forall x, In x l2 -> fitness x <= fitness y)).
Proof.
  revert best. induction l as [|x xs IH]; intros best Hl Hb.
  - exists best. split; [reflexivity|]. left. split; [reflexivity|]. intros x [].
  - assert (Hx : 0 <= x < 2 ^ 52) by (apply Hl; left; reflexivity).
    assert (Hxs : small xs) by (intros z Hz; apply Hl; right; exact Hz).
    destruct (score_of_good x Hx) as (Sx & Gx & _).
    destruct (score_of_good best Hb) as (_ & Gb & _).
    cbn [max_loop]. rewrite Sx. cbn [bind].
    rewrite num_gtb_rank by assumption.
    fold (fitness best). fold (fitness x).
    destruct (Z.ltb_spec (fitness best) (fitness x)) as [Hlt|Hge].
    + destruct (IH x Hxs Hx) as (y & Hy & [[-> Hall]|(l1 & l2 & -> & H1 & H2 & H3)]).
      * exists x. split; [exact Hy|]. right. exists [], xs.
        split; [reflexivity|]. split; [exact Hlt|]. split; [intros z []|exact Hall].
      * exists y. split; [exact Hy|]. right. exists (x :: l1), l2.
        split; [reflexivity|]. split; [lia|].
        split; [|exact H3]. intros z [<-|Hz]; [exact H1|exact (H2 z Hz)].
    + destruct (IH best Hxs Hb) as (y & Hy & [[-> Hall]|(l1 & l2 & -> & H1 & H2 & H3)]).
      * exists best. split; [exact Hy|]. left. split; [reflexivity|].
        intros z [<-|Hz]; [exact Hge|exact (Hall z Hz)].
      * exists y. split; [exact Hy|]. right. exists (x :: l1), l2.
        split; [reflexivity|]. split; [exact H1|].
        split; [|exact H3]. intros z [<-|Hz]; [lia|exact (H2 z Hz)].
Qed.

Lemma max_key_spec c :
  c <> [] -> small c ->
  exists y l1 l2,
    max_key c squareness = Ok y /\ c = l1 ++ y :: l2
    /\ (forall x, In x l1 -> fitness x < fitness y)
    /\ (forall x, In x l2 -> fitness x <= fitness y).
Proof.
  intros Hne Hc. destruct c as [|x0 xs]; [contradiction|].
  assert (Hx : 0 <= x0 < 2 ^ 52) by (apply Hc; left; reflexivity).
  assert (Hxs : small xs) by (intros z Hz; apply Hc; right; exact Hz).
  destruct (score_of_good x0 Hx) as (Sx & _).
  cbn [max_key]. rewrite Sx. cbn [bind].
  destruct (max_loop_spec xs x0 Hxs Hx)
    as (y & Hy & [[-> Hall]|(l1 & l2 & -> & H1 & H2 & H3)]).
  - exists x0, [], xs. split; [exact Hy|]. split; [reflexivity|].
    split; [intros z []|exact Hall].
  - exists y, (x0 :: l1), l2. split; [exact Hy|]. split; [reflexivity|].
    split; [|exact H3]. intros z [<-|Hz]; [exact H1|exact (H2 z Hz)].
Qed.

Lemma small_tail x xs : small (x :: xs) -> small xs.
Proof. intros H z Hz. apply H. right. exact Hz. Qed.

Lemma small_head x xs : small (x :: xs) -> 0 <= x < 2 ^ 52.
Proof. intros H. apply H. left. reflexivity. Qed.

Lemma squarest_of_small c b :
  small c ->
  squarest_of c None b
  = match filter is_square_b c with
    | [] => max_key c squareness
    | sq => item0 (sorted sq None b)
    end.
Proof.
  intros Hc. unfold squarest_of. rewrite comprehension_if_filter by assumption.
  cbn [bind]. destruct (filter is_square_b c) as [|s sq] eqn:E.
  - reflexivity.
  - destruct (sorted_head (s :: sq) b ltac:(discriminate)) as (y & Hy & _).
    rewrite Hy. reflexivity.
Qed.

Lemma map_result_squareness c :
  small c -> map_result squareness c = Ok (map score_of c).
Proof.
  induction c as [|x xs IH]; intros Hc; [reflexivity|].
  cbn [map_result map].
  destruct (score_of_good x (small_head _ _ Hc)) as (Sx & _).
  rewrite Sx. cbn [bind]. rewrite IH by (eapply small_tail; eassumption).
  reflexivity.
Qed.

Lemma tied_filter (f : num -> bool) (g : Z -> num) c :
  map fst (filter (fun p => f (snd p)) (combine c (map g c)))
  = filter (fun x => f (g x)) c.
Proof.
  induction c as [|x xs IH]; [reflexivity|].
  cbn [map combine filter snd]. destruct (f (g x)); cbn [map fst]; rewrite IH; reflexivity.
Qed.

Lemma best_score_spec xs x0 :
  small (x0 :: xs) ->
  exists z, In z (x0 :: xs)
            /\ best_score (score_of x0) (map score_of xs) = score_of z
            /\ forall x, In x (x0 :: xs) -> fitness x <= fitness z.
Proof.
  revert x0. induction xs as [|x1 xs IH]; intros x0 Hc.
  - exists x0. split; [left; reflexivity|]. split; [reflexivity|].
    intros x [<-|[]]. lia.
  - assert (H0 : 0 <= x0 < 2 ^ 52) by (eapply small_head; eassumption).
    assert (H1 : 0 <= x1 < 2 ^ 52) by (apply Hc; right; left; reflexivity).
    assert (Hxs : small xs) by (intros z Hz; apply Hc; right; right; exact Hz).
    destruct (score_of_good x0 H0) as (_ & G0 & _).
    destruct (score_of_good x1 H1) as (_ & G1 & _).
    unfold best_score. cbn [map fold_left]. fold (best_score).
    rewrite num_gtb_rank by assumption. fold (fitness x0). fold (fitness x1).
    destruct (Z.ltb_spec (fitness x0) (fitness x1)) as [Hlt|Hge].
    + destruct (IH x1) as (z & Hz & Hb & Hmax).
      { intros w [<-|Hw]; [exact H1|exact (Hxs w Hw)]. }
      exists z. split; [right; exact Hz|]. split; [exact Hb|].
      intros x [Hx|Hx]; [subst x|exact (Hmax x Hx)].
      specialize (Hmax x1 (or_introl eq_refl)). lia.
    + destruct (IH x0) as (z & Hz & Hb & Hmax).
      { intros w [<-|Hw]; [exact H0|exact (Hxs w Hw)]. }
      exists z. split; [destruct Hz as [<-|Hz]; [left; reflexivity|right; right; exact Hz]|].
      split; [exact Hb|].
      intros x [Hx|[Hx|Hx]].
      * subst x. exact (Hmax x0 (or_introl eq_refl)).
      * subst x. specialize (Hmax x0 (or_introl eq_refl)). lia.
      * exact (Hmax x (or_intror Hx)).
Qed.

(** The full scan returns the first of the sorted candidates of greatest
    fitness. *)
Lemma full_scan_filter c b :
  c <> [] -> small c ->
  exists M,
    (exists z, In z c /\ fitness z = M)
    /\ (forall x, In x c -> fitness x <= M)
    /\ full_scan c b = item0 (sorted (filter (fun x => fitness x =? M) c) None b).
Proof.
  intros Hne Hc. destruct c as [|x0 xs]; [contradiction|].
  destruct (best_score_spec xs x0 Hc) as (z & Hz & Hb & Hmax).
  exists (fitness z). split; [exists z; split; [exact Hz|reflexivity]|].
  split; [exact Hmax|].
  unfold full_scan. rewrite map_result_squareness by assumption.
  cbn [bind map]. rewrite Hb.
  change (score_of x0 :: map score_of xs) with (map score_of (x0 :: xs)).
  rewrite (tied_filter (fun s => num_eqb s (score_of z)) score_of (x0 :: xs)).
  f_equal. f_equal. apply filter_ext_in. intros x Hx.
  destruct (score_of_good x (Hc x Hx)) as (_ & Gx & _).
  destruct (score_of_good z (Hc z Hz)) as (_ & Gz & _).
  rewrite num_eqb_rank by assumption. reflexivity.
Qed.

Lemma filter_nonempty {A : Type} (f : A -> bool) l z :
  In z l -> f z = true -> filter f l <> [].
Proof.
  intros Hin Hf Habs.
  assert (In z (filter f l)) by (apply filter_In; split; assumption).
  rewrite Habs in H. destruct H.
Qed.

Lemma full_scan_spec c b :
  c <> [] -> small c ->
  exists z,
    full_scan c b = Ok z /\ In z c
    /\ (forall x, In x c -> fitness x <= fitness z)
    /\ (forall x, In x c -> fitness x = fitness z -> if b then x <= z else z <= x).
Proof.
  intros Hne Hc.
  destruct (full_scan_filter c b Hne Hc) as (M & (z0 & Hz0 & HM) & Hmax & Hfs).
  assert (Hn : filter (fun x => fitness x =? M) c <> []).
  { apply (filter_nonempty _ c z0 Hz0). apply Z.eqb_eq. exact HM. }
  destruct (sorted_head _ b Hn) as (y & Hy & Hin & Hmin).
  apply filter_In in Hin. destruct Hin as [Hin HyM]. apply Z.eqb_eq in HyM.
  exists y. split; [rewrite Hfs; exact Hy|]. split; [exact Hin|].
  split; [intros x Hx; rewrite HyM; exact (Hmax x Hx)|].
  intros x Hx Hfx. apply Hmin. apply filter_In. split; [exact Hx|].
  apply Z.eqb_eq. lia.
Qed.

(** With a perfect square among the candidates, the perfect squares are the
    candidates of greatest fitness. *)
Lemma squares_are_fittest c s :
  small c -> In s c -> is_square_b s = true ->
  forall M, (exists z, In z c /\ fitness z = M) ->
            (forall x, In x c -> fitness x <= M) ->
            filter (fun x => fitness x =? M) c = filter is_square_b c.
Proof.
  intros Hc Hs Hsq M (z & Hz & HM) Hmax.
  assert (HM' : M = 2 ^ 1074).
  { destruct (score_of_good s (Hc s Hs)) as (_ & _ & _ & Hiff & _).
    destruct (score_of_good z (Hc z Hz)) as (_ & _ & Hr & _).
    apply Hiff in Hsq. specialize (Hmax s Hs). lia. }
  apply filter_ext_in. intros x Hx.
  destruct (score_of_good x (Hc x Hx)) as (_ & _ & _ & Hiff & _).
  destruct (is_square_b x) eqn:E.
  - apply Z.eqb_eq. rewrite HM'. apply Hiff. reflexivity.
  - apply Z.eqb_neq. rewrite HM'. intros Habs. apply Hiff in Habs. discriminate.
Qed.

(** ** The properties C1 - C10 *)


Lemma small_list_3 a b c :
  0 <= a < 2 ^ 52 -> 0 <= b < 2 ^ 52 -> 0 <= c < 2 ^ 52 -> small [a; b; c].
Proof. intros Ha Hb Hc x [<-|[<-|[<-|[]]]]; assumption. Qed.




(** The square of [2^53 + 1]: the pair returned is not its square root. *)
Lemma perfect_square_rounded :
  squarish_factors ((2 ^ 53 + 1) * (2 ^ 53 + 1)) = Ok (2 ^ 53, 2 ^ 53).
Proof. vm_compute. reflexivity. Qed.

(** C2 at [2^54 + 1]: [squarish_factors] takes it for a perfect square and
    returns [(2^27, 2^27)], whose product is [2^54]. *)
Theorem squarish_factors_not_factors :
  squarish_factors (2 ^ 54 + 1) = Ok (2 ^ 27, 2 ^ 27)
  /\ 2 ^ 27 * 2 ^ 27 <> 2 ^ 54 + 1.
Proof. split; [vm_compute; reflexivity|vm_compute; discriminate]. Qed.




(** C4, as the code has it: for a non-empty collection of ints in
    [0, 2^52), [squarest_of] and the full scan both return, and return
    candidates of equal fitness; they return the same candidate when the
    collection has a perfect square. *)
Theorem fast_path_vs_full_scan (c : list Z) (b : bool) :
  c <> [] -> small c ->
  exists y z,
    squarest_of c None b = Ok y /\ full_scan c b = Ok z /\ fit_eq y z
    /\ ((exists s, In s c /\ is_square s = Ok true) -> y = z).
Proof.
  intros Hne Hc.
  destruct (full_scan_spec c b Hne Hc) as (z & Hz & Hzin & Hzmax & _).
  rewrite squarest_of_small by assumption.
  destruct (filter is_square_b c) as [|s0 sq] eqn:E.
  - destruct (max_key_spec c Hne Hc) as (y & l1 & l2 & Hy & Hcy & H1 & H2).
    assert (Hyin : In y c) by (rewrite Hcy; apply in_or_app; right; left; reflexivity).
    exists y, z. split; [exact Hy|]. split; [exact Hz|]. split.
    + apply fit_eq_iff; [apply Hc; exact Hyin|apply Hc; exact Hzin|].
      assert (fitness z <= fitness y).
      { rewrite Hcy in Hzin. apply in_app_or in Hzin.
        destruct Hzin as [Hi|[<-|Hi]]; [specialize (H1 z Hi); lia|lia|exact (H2 z Hi)]. }
      specialize (Hzmax y Hyin). lia.
    + intros (s & Hs & Hq). exfalso.
      assert (In s (filter is_square_b c)).
      { apply filter_In. split; [exact Hs|]. unfold is_square_b. rewrite Hq. reflexivity. }
      rewrite E in H. destruct H.
  - assert (Hs0 : In s0 (filter is_square_b c)) by (rewrite E; left; reflexivity).
    apply filter_In in Hs0. destruct Hs0 as [Hs0 Hq0].
    destruct (full_scan_filter c b Hne Hc) as (M & HM & Hmax & Hfs).
    rewrite (squares_are_fittest c s0 Hc Hs0 Hq0 M HM Hmax), E in Hfs.
    rewrite Hfs in Hz. exists z, z. split; [exact Hz|]. split; [rewrite Hfs; exact Hz|].
    split; [|intros _; reflexivity].
    apply fit_eq_iff; try (apply Hc; exact Hzin). reflexivity.
Qed.

Lemma fast_path_vs_full_scan_witness :
  exists y z,
    squarest_of [9; 8; 4] None false = Ok y /\ full_scan [9; 8; 4] false = Ok z
    /\ fit_eq y z
    /\ ((exists s, In s [9; 8; 4] /\ is_square s = Ok true) -> y = z).
Proof.
  apply (fast_path_vs_full_scan [9; 8; 4] false);
    [discriminate | apply small_list_3; vm_compute; split; discriminate || reflexivity].
Defined.

(** C4 fails as stated: on [[32; 8]], which has no perfect square, the
    code returns 32 and the full scan, with its smallest-first tie-break,
    returns 8. *)
Lemma fast_path_differs :
  squarest_of [32; 8] None false = Ok 32 /\ full_scan [32; 8] false = Ok 8.
Proof. split; vm_compute; reflexivity. Qed.

(** C5, as the code has it: [squarish_factors 20] is [(5, 4)], and
    [squareness 20] is strictly between [0.89] and [0.9]. *)
Theorem twenty :
  squarish_factors 20 = Ok (5, 4)
  /\ exists v, squareness 20 = Ok v
               /\ num_ltb (Float float_0_89) v = true
               /\ num_ltb v (Float float_0_9) = true.
Proof.
  split; [vm_compute; reflexivity|].
  eexists. split; [vm_compute; reflexivity|]. split; vm_compute; reflexivity.
Qed.

(** C5 fails as stated: [squareness 20] is not above [0.9]. *)
Lemma twenty_below_nine_tenths :
  exists v, squareness 20 = Ok v /\ num_ltb (Float float_0_9) v = false.
Proof. eexists. split; [vm_compute; reflexivity|]. vm_compute. reflexivity. Qed.

(** C6 on the code: [fittest_total 8 4 (3, 4)] raises
    [NotImplementedError] and returns nothing. *)
Theorem fittest_total_not_implemented :
  fittest_total 8 4 (RPair 3 4) false = Raise NotImplementedError.
Proof. reflexivity. Qed.

(** C7, as the code has it: for a non-empty collection of ints in
    [0, 2^52), with no key and no reversal, [squarest_of] returns a
    candidate of greatest squareness; when the collection has a perfect
    square it is the smallest of the candidates of greatest squareness, and
    when it has none it is the first of them in the order of the
    collection. *)
Theorem squarest_of_default_tie (c : list Z) :
  c <> [] -> small c ->
  exists y,
    squarest_of c None false = Ok y /\ In y c
    /\ (forall x, In x c -> fit_le x y)
    /\ ((exists s, In s c /\ is_square s = Ok true) ->
        forall x, In x c -> fit_eq x y -> y <= x)
    /\ ((forall s, In s c -> is_square s = Ok false) ->
        exists l1 l2, c = l1 ++ y :: l2 /\ forall x, In x l1 -> fit_lt x y).
Proof.
  intros Hne Hc.
  rewrite squarest_of_small by assumption.
  destruct (filter is_square_b c) as [|s0 sq] eqn:E.
  - destruct (max_key_spec c Hne Hc) as (y & l1 & l2 & Hy & Hcy & H1 & H2).
    assert (Hyin : In y c) by (rewrite Hcy; apply in_or_app; right; left; reflexivity).
    exists y. split; [exact Hy|]. split; [exact Hyin|]. split; [|split].
    + intros x Hx. apply fit_le_iff; [apply Hc; exact Hx|apply Hc; exact Hyin|].
      rewrite Hcy in Hx. apply in_app_or in Hx.
      destruct Hx as [Hi|[<-|Hi]]; [specialize (H1 x Hi); lia|lia|exact (H2 x Hi)].
    + intros (s & Hs & Hq). exfalso.
      assert (In s (filter is_square_b c)).
      { apply filter_In. split; [exact Hs|]. unfold is_square_b. rewrite Hq. reflexivity. }
      rewrite E in H. destruct H.
    + intros _. exists l1, l2. split; [exact Hcy|].
      intros x Hx. apply fit_lt_iff; [|apply Hc; exact Hyin|exact (H1 x Hx)].
      apply Hc. rewrite Hcy. apply in_or_app. left. exact Hx.
  - destruct (sorted_head (s0 :: sq) false ltac:(discriminate)) as (y & Hy & Hin & Hmin).
    rewrite <- E in Hin, Hmin.
    apply filter_In in Hin. destruct Hin as [Hyin Hyq].
    destruct (score_of_good y (Hc y Hyin)) as (_ & _ & _ & Hyiff & _).
    apply Hyiff in Hyq.
    exists y. split; [exact Hy|]. split; [exact Hyin|]. split; [|split].
    + intros x Hx. apply fit_le_iff; [apply Hc; exact Hx|apply Hc; exact Hyin|].
      destruct (score_of_good x (Hc x Hx)) as (_ & _ & Hr & _). lia.
    + intros _ x Hx Hfe.
      apply fit_eq_iff in Hfe; [|apply Hc; exact Hx|apply Hc; exact Hyin].
      apply Hmin. apply filter_In. split; [exact Hx|].
      destruct (score_of_good x (Hc x Hx)) as (_ & _ & _ & Hiff & _).
      apply Hiff. lia.
    + intros Hnone. exfalso.
      assert (Hs0 : In s0 (filter is_square_b c)) by (rewrite E; left; reflexivity).
      apply filter_In in Hs0. destruct Hs0 as [Hs0 Hq0].
      unfold is_square_b in Hq0. rewrite (Hnone s0 Hs0) in Hq0. discriminate.
Qed.

Lemma squarest_of_default_tie_witness :
  exists y,
    squarest_of [8; 9; 4] None false = Ok y /\ In y [8; 9; 4]
    /\ (forall x, In x [8; 9; 4] -> fit_le x y)
    /\ ((exists s, In s [8; 9; 4] /\ is_square s = Ok true) ->
        forall x, In x [8; 9; 4] -> fit_eq x y -> y <= x)
    /\ ((forall s, In s [8; 9; 4] -> is_square s = Ok false) ->
        exists l1 l2, [8; 9; 4] = l1 ++ y :: l2 /\ forall x, In x l1 -> fit_lt x y).
Proof.
  apply (squarest_of_default_tie [8; 9; 4]);
    [discriminate | apply small_list_3; vm_compute; split; discriminate || reflexivity].
Defined.

(** C7 fails as stated: on [[8; 2]] the code returns 8, though 2 has the
    same squareness and is smaller. *)
Lemma squarest_of_first_of_ties :
  squarest_of [8; 2] None false = Ok 8
  /\ squareness 2 = squareness 8 /\ 2 < 8.
Proof. split; [vm_compute; reflexivity|]. split; [vm_compute; reflexivity|lia]. Qed.


(** C9, as the code has it: for every [x < 0], [is_prime x] raises
    [ValueError], or [OverflowError] when [x <= - 2^1023] is too large for a
    float. *)
Theorem is_prime_negative (x : Z) :
  x < 0 ->
  is_prime x = Raise ValueError
  \/ (is_prime x = Raise OverflowError /\ x <= - 2 ^ 1023).
Proof.
  intros Hx. unfold is_prime.
  destruct (squarish_factors_negative x Hx) as [[E B]|E]; rewrite E.
  - right. split; [reflexivity|exact B].
  - left. reflexivity.
Qed.

Lemma is_prime_negative_witness :
  is_prime (-1) = Raise ValueError
  \/ (is_prime (-1) = Raise OverflowError /\ -1 <= - 2 ^ 1023).
Proof. apply (is_prime_negative (-1)). lia. Defined.

(** C9 fails as stated: [is_prime 0] returns [False]. *)
Lemma is_prime_zero : is_prime 0 = Ok false.
Proof. vm_compute. reflexivity. Qed.

Lemma range_from_zero n : 1 <= n -> exists l, range 0 n = 0 :: l.
Proof.
  intros Hn. unfold range. replace (n - 0) with n by lia.
  destruct (Z.to_nat n) as [|k] eqn:E; [lia|].
  cbn [seq map]. eexists. reflexivity.
Qed.

(** C10, as the code has it: for every [x >= 1], [factors_of x] raises
    [ZeroDivisionError], or [OverflowError] when [x >= 2^1023] is too large
    for a float; it never returns. *)
Theorem factors_of_positive (x : Z) :
  1 <= x ->
  factors_of x = Raise ZeroDivisionError
  \/ (factors_of x = Raise OverflowError /\ 2 ^ 1023 <= x).
Proof.
  intros Hx. unfold factors_of.
  destruct (math_sqrt_floor_pos x Hx) as [[E B]|(s & i & n & Es & Ei & En & Hn)].
  - right. rewrite E. split; [reflexivity|exact B].
  - left. rewrite Es. cbn [bind]. rewrite Ei. cbn [bind]. rewrite En. cbn [bind].
    destruct (range_from_zero n Hn) as (l & ->).
    cbn [factors_of_loop]. reflexivity.
Qed.

Lemma factors_of_positive_witness :
  factors_of 12 = Raise ZeroDivisionError
  \/ (factors_of 12 = Raise OverflowError /\ 2 ^ 1023 <= 12).
Proof. apply (factors_of_positive 12). lia. Defined.

(** C10 fails as stated: [factors_of (2^1024)] raises [OverflowError], not
    a division by zero. *)
Lemma factors_of_overflow : factors_of (2 ^ 1024) = Raise OverflowError.
Proof. vm_compute. reflexivity. Qed.

(** ** Further properties of the code, X1 - X16 *)

Lemma square_le_cancel a b c : 0 < c -> 0 <= a -> 0 <= b -> a * c <= b * c -> a <= b.
Proof. intros Hc Ha Hb H. apply Z.mul_le_mono_pos_r with c; assumption. Qed.

Lemma sqrt_round_floor x t :
  0 < x -> 0 < t ->
  let M := x * (t * t) in
  let q := Z.sqrt M in
  let qr := if M - q * q <=? q then q else q + 1 in
  q < t * t ->
  forall j, 0 <= j -> j * t <= qr -> qr < (j + 1) * t ->
            j * j <= x < (j + 1) * (j + 1).
Proof.
  intros Hx Ht M q qr Hq j Hj Hlo Hhi.
  destruct (sqrt_round_props x t Hx Ht Hq) as (Pa & _).
  fold M in Pa. fold q in Pa. fold qr in Pa.
  assert (HT : 0 < t * t) by nia.
  assert (HM : 0 < M) by (unfold M; nia).
  pose proof (Z.sqrt_spec M ltac:(lia)) as Hs. cbv zeta in Hs. fold q in Hs.
  assert (Hq0 : 0 <= q) by (apply Z.sqrt_nonneg).
  replace (Z.succ q * Z.succ q) with (q * q + 2 * q + 1) in Hs by lia.
  assert (EMdef : M = x * (t * t)) by reflexivity.
  assert (Hqr : q <= qr <= q + 1) by (unfold qr; destruct (Z.leb_spec (M - q * q) q); lia).
  clearbody qr. clearbody q. clearbody M.
  split.
  - destruct (Z.eq_dec (j * t) (q + 1)) as [E|E].
    + assert (qr = j * t) by lia. rewrite (Pa j H). lia.
    + assert (Hjq : j * t <= q) by lia.
      assert ((j * t) * (j * t) <= q * q) by (apply Z.mul_le_mono_nonneg; nia).
      assert (j * j * (t * t) <= x * (t * t)) by nia.
      apply square_le_cancel with (t * t); nia.
  - assert (Hjq : q + 1 <= (j + 1) * t) by lia.
    assert ((q + 1) * (q + 1) <= ((j + 1) * t) * ((j + 1) * t))
      by (apply Z.mul_le_mono_nonneg; nia).
    assert (x * (t * t) < (j + 1) * (j + 1) * (t * t)) by nia.
    apply Z.mul_lt_mono_pos_r with (t * t); assumption.
Qed.

(** [math.floor(math.sqrt(x))] is the integer square root, below [2^52]. *)
Lemma floor_sqrt_small x :
  0 < x < 2 ^ 52 ->
  let j := sq_mant x / sq_scale x in
  1 <= j /\ j * j <= x < (j + 1) * (j + 1).
Proof.
  intros Hx j.
  pose proof (sq_scale_big x Hx) as Ht.
  pose proof (sq_scale_pos x ltac:(pw; lia)) as Ht'.
  destruct (math_sqrt_small x ltac:(pw; lia)) as [_ Hm].
  assert (Ht0 : 0 < sq_scale x) by (pw; lia).
  pose proof (Z.div_mod (sq_mant x) (sq_scale x) ltac:(lia)) as Hdm.
  pose proof (Z.mod_pos_bound (sq_mant x) (sq_scale x) Ht0) as Hmb.
  fold j in Hdm.
  assert (Hj1 : 1 <= j).
  { assert (0 < j); [|lia]. apply Z.div_str_pos. pw. lia. }
  split; [exact Hj1|].
  pose proof (sqrt_round_floor x (sq_scale x) ltac:(lia) Ht0) as H.
  cbv zeta in H. apply H; try lia.
  - clear H. unfold sq_mant, mant in Hm.
    set (M := x * (sq_scale x * sq_scale x)) in *.
    set (q := Z.sqrt M) in *.
    assert (q < 2 ^ 53) by (destruct (Z.leb_spec (M - q * q) q); lia).
    pw. nia.
  - fold (sq_mant x). lia.
  - fold (sq_mant x). lia.
Qed.

Lemma loop_spec_max x n :
  0 < x < 2 ^ 53 -> (1 <= n)%nat ->
  exists d, 1 <= d <= Z.of_nat n /\ x mod d = 0
            /\ squarish_factors_loop x n = Ok (x / d, d)
            /\ forall d', d < d' <= Z.of_nat n -> x mod d' <> 0.
Proof.
  intros Hx. induction n as [|k IH]; intros Hn; [lia|].
  cbn [squarish_factors_loop]. unfold int_mod.
  destruct (Z.eqb_spec (Z.of_nat (S k)) 0); [lia|]. cbn [bind].
  destruct (Z.eqb_spec (x mod Z.of_nat (S k)) 0) as [E|E].
  - exists (Z.of_nat (S k)). split; [lia|]. split; [exact E|].
    destruct (int_truediv_exact x (Z.of_nat (S k)) Hx ltac:(lia) E) as (f & Hf & Hi).
    rewrite Hf. cbn [bind]. rewrite Hi. split; [reflexivity|]. intros d' Hd'. lia.
  - destruct k as [|k'].
    + exfalso. apply E. change (Z.of_nat 1) with 1. apply Z.mod_1_r.
    + destruct (IH ltac:(lia)) as (d & Hd & Hm & Hl & Hmax).
      exists d. split; [lia|]. split; [assumption|]. split; [assumption|].
      intros d' Hd'. destruct (Z.eq_dec d' (Z.of_nat (S (S k')))) as [->|Hne].
      * exact E.
      * apply Hmax. lia.
Qed.

(** [squarish_factors] on [0 < x < 2^52]: the second component is the
    greatest divisor of [x] whose square is at most [x]. *)
Lemma squarish_factors_greatest x :
  0 < x < 2 ^ 52 ->
  exists d,
    squarish_factors x = Ok (x / d, d) /\ 1 <= d /\ x mod d = 0 /\ d * d <= x
    /\ forall d', 0 < d' -> x mod d' = 0 -> d' * d' <= x -> d' <= d.
Proof.
  intros Hx. unfold squarish_factors.
  assert (Hx' : 0 < x < 2 ^ 53) by (pw; lia).
  rewrite is_square_small by assumption. cbn [bind].
  destruct (math_sqrt_small x Hx') as [Hs Hm].
  destruct (sq_exp_bounds x Hx') as [He _].
  pose proof (sq_scale_pos x Hx') as Ht.
  destruct (sq_props x Hx) as (Pa & _).
  destruct (floor_sqrt_small x Hx) as [Hj1 Hj].
  set (j := sq_mant x / sq_scale x) in *.
  rewrite Hs. cbn [bind].
  destruct (Z.eqb_spec (j * sq_scale x) (sq_mant x)) as [E|E].
  - rewrite int_of_float_fin by (pw; lia). cbn [bind].
    fold (sq_scale x). fold j.
    assert (Hxj : x = j * j) by (apply Pa; lia).
    assert (Hdiv : x / j = j) by (rewrite Hxj; apply Z.div_mul; lia).
    exists j. rewrite Hdiv. split; [reflexivity|]. split; [lia|].
    split; [rewrite Hxj; apply Z.mod_mul; lia|]. split; [lia|].
    intros d' Hd' _ Hsq. nia.
  - rewrite math_floor_fin by (pw; lia). cbn [bind].
    fold (sq_scale x). fold j.
    destruct (loop_spec_max x (Z.to_nat j) Hx' ltac:(lia)) as (d & Hd & Hmod & Hl & Hmax).
    exists d. split; [exact Hl|]. split; [lia|]. split; [exact Hmod|].
    split; [nia|].
    intros d' Hd' Hmod' Hsq.
    destruct (Z_le_gt_dec d' d) as [|Hgt]; [assumption|exfalso].
    apply (Hmax d'); [|exact Hmod']. split; [lia|]. nia.
Qed.

Lemma div_exact x d : 0 < d -> x mod d = 0 -> x / d * d = x.
Proof. intros Hd Hm. pose proof (Z.div_mod x d ltac:(lia)). lia. Qed.

(** X1: on [0 <= x < 2^52], [squarish_factors] returns a pair of
    non-negative factors of [x], the larger first. *)
Theorem squarish_factors_product (x : Z) :
  0 <= x < 2 ^ 52 ->
  exists a b, squarish_factors x = Ok (a, b) /\ a * b = x /\ 0 <= b <= a.
Proof.
  intros Hx. destruct (Z.eq_dec x 0) as [->|Hn].
  - exists 0, 0. split; [vm_compute; reflexivity|lia].
  - destruct (squarish_factors_greatest x ltac:(lia)) as (d & Hsf & Hd & Hmod & Hsq & _).
    pose proof (div_exact x d ltac:(lia) Hmod) as Hxd.
    exists (x / d), d. split; [exact Hsf|]. split; [exact Hxd|]. nia.
Qed.

Lemma squarish_factors_product_witness :
  exists a b, squarish_factors 53 = Ok (a, b) /\ a * b = 53 /\ 0 <= b <= a.
Proof. apply (squarish_factors_product 53). vm_compute. split; [discriminate|reflexivity]. Defined.

(** X2: on [0 < x < 2^52], the pair [squarish_factors] returns is the
    closest pair of factors: no divisor of [x] lies strictly between its two
    components. *)
Theorem squarish_factors_closest (x : Z) :
  0 < x < 2 ^ 52 ->
  exists a b,
    squarish_factors x = Ok (a, b) /\ a * b = x /\ 1 <= b <= a
    /\ forall d, (d | x) -> ~ (b < d < a).
Proof.
  intros Hx.
  destruct (squarish_factors_greatest x Hx) as (d & Hsf & Hd & Hmod & Hsq & Hmax).
  pose proof (div_exact x d ltac:(lia) Hmod) as Hxd.
  exists (x / d), d. split; [exact Hsf|]. split; [exact Hxd|].
  split; [nia|].
  intros d' [c Hc] [Hlo Hhi].
  assert (Hd' : 0 < d') by lia.
  assert (Hc0 : 0 < c) by nia.
  assert (Hmd' : x mod d' = 0) by (rewrite Hc; apply Z.mod_mul; lia).
  assert (Hmc : x mod c = 0) by (rewrite Hc, Z.mul_comm; apply Z.mod_mul; lia).
  destruct (Z_le_gt_dec (d' * d') x) as [Hle|Hgt].
  - specialize (Hmax d' Hd' Hmd' Hle). lia.
  - assert (c * c <= x) by nia.
    specialize (Hmax c Hc0 Hmc H).
    assert (d' * d < x) by nia. nia.
Qed.

Lemma squarish_factors_closest_witness :
  exists a b,
    squarish_factors 20 = Ok (a, b) /\ a * b = 20 /\ 1 <= b <= a
    /\ forall d, (d | 20) -> ~ (b < d < a).
Proof. apply (squarish_factors_closest 20). vm_compute. split; reflexivity. Defined.

Lemma is_square_iff x :
  0 <= x < 2 ^ 52 ->
  exists b, is_square x = Ok b /\ (b = true <-> exists k, x = k * k).
Proof.
  intros Hx. destruct (Z.eq_dec x 0) as [->|Hn].
  - exists true. split; [exact is_square_zero|]. split; [|reflexivity].
    intros _. exists 0. reflexivity.
  - assert (Hx' : 0 < x < 2 ^ 52) by lia.
    rewrite is_square_small by assumption.
    eexists. split; [reflexivity|].
    destruct (sq_props x Hx') as (Pa & Pb & _).
    pose proof (sq_scale_pos x ltac:(pw; lia)) as Ht.
    split.
    + intros E. apply Z.eqb_eq in E. exists (sq_mant x / sq_scale x).
      apply Pa. lia.
    + intros [k Hk]. apply Z.eqb_eq.
      assert (Hk' : x = Z.abs k * Z.abs k) by lia.
      rewrite (Pb (Z.abs k) ltac:(nia) Hk').
      rewrite Z.div_mul by (pw; lia). reflexivity.
Qed.

(** X3: on [0 <= x < 2^52], [is_square] returns, and returns [True] exactly
    for the perfect squares. *)
Theorem is_square_decides (x : Z) :
  0 <= x < 2 ^ 52 ->
  exists b, is_square x = Ok b /\ (b = true <-> exists k, x = k * k).
Proof. exact (is_square_iff x). Qed.

Lemma is_square_decides_witness :
  exists b, is_square 49 = Ok b /\ (b = true <-> exists k, 49 = k * k).
Proof. apply (is_square_decides 49). vm_compute. split; [discriminate|reflexivity]. Defined.

(** X4: [is_square] of a negative int that fits a float is [False]: the
    domain error of [math.sqrt] is caught. *)
Theorem is_square_negative_false (x : Z) :
  - 2 ^ 1023 < x < 0 -> is_square x = Ok false.
Proof.
  intros Hx. destruct (is_square_negative x ltac:(lia)) as [(_ & _ & B)|[E _]]; [lia|exact E].
Qed.

Lemma is_square_negative_false_witness : is_square (-1) = Ok false.
Proof. apply (is_square_negative_false (-1)). vm_compute. split; reflexivity. Defined.

(** X5: on [2 <= x < 2^52], [is_prime] returns, and returns [True] exactly
    for the primes. *)
Theorem is_prime_correct (x : Z) :
  2 <= x < 2 ^ 52 ->
  exists b, is_prime x = Ok b /\ (b = true <-> Z.prime x).
Proof.
  intros Hx. unfold is_prime.
  destruct (squarish_factors_greatest x ltac:(lia)) as (d & Hsf & Hd & Hmod & Hsq & Hmax).
  pose proof (div_exact x d ltac:(lia) Hmod) as Hxd.
  rewrite Hsf. cbn [bind]. eexists. split; [reflexivity|].
  assert (Hmin : Z.min (x / d) d = d) by nia. rewrite Hmin.
  split.
  - intros E. apply Z.eqb_eq in E. subst d. split; [lia|].
    intros n Hn [c Hc].
    assert (Hc0 : 0 < c) by nia.
    assert (Hmn : x mod n = 0) by (rewrite Hc; apply Z.mod_mul; lia).
    assert (Hmc : x mod c = 0) by (rewrite Hc, Z.mul_comm; apply Z.mod_mul; lia).
    destruct (Z_le_gt_dec (n * n) x) as [Hle|Hgt].
    + specialize (Hmax n ltac:(lia) Hmn Hle). lia.
    + assert (c * c <= x) by nia.
      specialize (Hmax c Hc0 Hmc H). assert (c = 1) by lia. subst c. lia.
  - intros Hp. apply Z.eqb_eq.
    assert (Hdx : (d | x)) by (exists (x / d); lia).
    destruct (Z.divide_prime_r d x Hp Hdx) as [E|[E|[E|E]]]; try lia.
    subst d. nia.
Qed.

Lemma is_prime_correct_witness :
  exists b, is_prime 53 = Ok b /\ (b = true <-> Z.prime 53).
Proof. apply (is_prime_correct 53). vm_compute. split; [discriminate|reflexivity]. Defined.

Lemma good_one : good (Float float_one).
Proof.
  right. exists (2 ^ 52), (-52). split; [reflexivity|]. split; [pw; lia|lia].
Qed.

Lemma rank_one : rank (Float float_one) = 2 ^ 1074.
Proof. reflexivity. Qed.

(** X6: on [0 < x < 2^52], [squareness] is the float [1.0] for a perfect
    square and a float below [1.0] for any other [x]. *)
Theorem squareness_one_iff_square (x : Z) :
  0 < x < 2 ^ 52 ->
  exists f, squareness x = Ok (Float f)
            /\ ((exists k, x = k * k) -> f = float_one)
            /\ (~ (exists k, x = k * k) -> num_ltb (Float f) (Float float_one) = true).
Proof.
  intros Hx.
  destruct (is_square_iff x ltac:(lia)) as (b & Hb & Hiff).
  destruct (squareness_good x ltac:(lia)) as (v & b' & Hs & Hb' & Hg & Hr & Hbr & _ & Hone).
  rewrite Hb in Hb'. injection Hb' as <-.
  destruct b.
  - exists float_one. rewrite Hs, (Hone ltac:(lia) eq_refl).
    split; [reflexivity|]. split; [reflexivity|].
    intros Hn. exfalso. apply Hn. apply Hiff. reflexivity.
  - destruct Hg as [->|(m & e & -> & Hm & He)].
    + exfalso. cbn [rank] in Hbr.
      assert (false = true) by (apply Hbr; lia). discriminate.
    + exists (fin m e). split; [exact Hs|]. split.
      * intros Hk. apply Hiff in Hk. discriminate.
      * intros _. rewrite num_ltb_rank;
          [|right; exists m, e; split; [reflexivity|split; assumption]|exact good_one].
        apply Z.ltb_lt. rewrite rank_one.
        destruct (Z.eq_dec (rank (Float (fin m e))) (2 ^ 1074)) as [E|E]; [|lia].
        apply Hbr in E. discriminate.
Qed.

Lemma squareness_one_iff_square_witness :
  exists f, squareness 12 = Ok (Float f)
            /\ ((exists k, 12 = k * k) -> f = float_one)
            /\ (~ (exists k, 12 = k * k) -> num_ltb (Float f) (Float float_one) = true).
Proof. apply (squareness_one_iff_square 12). vm_compute. split; reflexivity. Defined.

Lemma in_range a b x : In x (range a b) <-> a <= x < b.
Proof.
  unfold range. rewrite in_map_iff. split.
  - intros (i & <- & Hi). apply in_seq in Hi. lia.
  - intros Hx. exists (Z.to_nat (x - a)). split; [lia|]. apply in_seq. lia.
Qed.

Lemma range_empty a b : b <= a -> range a b = [].
Proof.
  intros H. unfold range. replace (Z.to_nat (b - a)) with 0%nat by lia. reflexivity.
Qed.

(** The first item of a sorted list has the least key, or the greatest when
    the sort is reversed. *)
Lemma sorted_head_key l key b :
  l <> [] ->
  exists y, item0 (sorted l key b) = Ok y /\ In y l
            /\ forall x, In x l ->
                 if b then key_of key x <= key_of key y
                 else key_of key y <= key_of key x.
Proof.
  unfold sorted. fold (key_of key). set (k := key_of key).
  induction l as [|x l' IH]; intros Hl; [contradiction|].
  cbn [fold_right].
  destruct l' as [|x' l''].
  - exists x. cbn. split; [reflexivity|]. split; [left; reflexivity|].
    intros z [<-|[]]. destruct b; lia.
  - destruct (IH ltac:(discriminate)) as (y & Hy & Hin & Hmin).
    destruct (fold_right (insert_by k b) [] (x' :: l'')) as [|h t] eqn:E;
      [discriminate|].
    cbn [item0] in Hy. injection Hy as ->.
    cbn [insert_by].
    destruct b.
    + destruct (Z.leb_spec (k y) (k x)).
      * exists x. split; [reflexivity|]. split; [left; reflexivity|].
        intros z [<-|Hz]; [lia|]. specialize (Hmin z Hz). cbn in Hmin. lia.
      * exists y. split; [reflexivity|]. split; [right; exact Hin|].
        intros z [<-|Hz]; [lia|]. exact (Hmin z Hz).
    + destruct (Z.leb_spec (k x) (k y)).
      * exists x. split; [reflexivity|]. split; [left; reflexivity|].
        intros z [<-|Hz]; [lia|]. specialize (Hmin z Hz). cbn in Hmin. lia.
      * exists y. split; [reflexivity|]. split; [right; exact Hin|].
        intros z [<-|Hz]; [lia|]. exact (Hmin z Hz).
Qed.

Lemma squarest_of_small_key c key b :
  small c ->
  squarest_of c key b
  = match filter is_square_b c with
    | [] => max_key c squareness
    | sq => item0 (sorted sq key b)
    end.
Proof.
  intros Hc. unfold squarest_of. rewrite comprehension_if_filter by assumption.
  cbn [bind]. destruct (filter is_square_b c) as [|s sq] eqn:E.
  - reflexivity.
  - destruct (sorted_head_key (s :: sq) key b ltac:(discriminate)) as (y & Hy & _).
    rewrite Hy. reflexivity.
Qed.

Lemma is_square_b_true x :
  0 <= x < 2 ^ 52 -> (is_square_b x = true <-> is_square x = Ok true).
Proof.
  intros Hx. destruct (score_of_good x Hx) as (_ & _ & _ & _ & Hq).
  rewrite Hq. split; [intros ->; reflexivity|]. intros E. injection E as E. exact E.
Qed.

(** The candidate [squarest_of] returns has the greatest fitness. *)
Lemma squarest_of_max c key b :
  c <> [] -> small c ->
  exists y, squarest_of c key b = Ok y /\ In y c
            /\ forall x, In x c -> fitness x <= fitness y.
Proof.
  intros Hne Hc. rewrite squarest_of_small_key by assumption.
  destruct (filter is_square_b c) as [|s0 sq] eqn:E.
  - destruct (max_key_spec c Hne Hc) as (y & l1 & l2 & Hy & Hcy & H1 & H2).
    assert (Hyin : In y c) by (rewrite Hcy; apply in_or_app; right; left; reflexivity).
    exists y. split; [exact Hy|]. split; [exact Hyin|].
    intros x Hx. rewrite Hcy in Hx. apply in_app_or in Hx.
    destruct Hx as [Hi|[<-|Hi]]; [specialize (H1 x Hi); lia|lia|exact (H2 x Hi)].
  - destruct (sorted_head_key (s0 :: sq) key b ltac:(discriminate)) as (y & Hy & Hin & _).
    rewrite <- E in Hin. apply filter_In in Hin. destruct Hin as [Hyin Hyq].
    destruct (score_of_good y (Hc y Hyin)) as (_ & _ & _ & Hyiff & _).
    apply Hyiff in Hyq.
    exists y. split; [exact Hy|]. split; [exact Hyin|].
    intros x Hx. destruct (score_of_good x (Hc x Hx)) as (_ & _ & Hr & _). lia.
Qed.

(** X7: for [0 <= m], [0 <= n] and [m + n < 2^52], [squarest_total m n]
    returns an int of the range [m .. m + n], both ends included, and no int
    of the range has a greater squareness. *)
Theorem squarest_total_in_range (m n : Z) (return_greatest : bool) :
  0 <= m -> 0 <= n -> m + n < 2 ^ 52 ->
  exists y, squarest_total m n return_greatest = Ok y /\ m <= y <= m + n
            /\ forall x, m <= x <= m + n -> fit_le x y.
Proof.
  intros Hm Hn Hmn. unfold squarest_total.
  assert (Hc : small (range m (m + n + 1))).
  { intros x Hx. apply in_range in Hx. lia. }
  assert (Hne : range m (m + n + 1) <> []).
  { intros E. assert (In m (range m (m + n + 1))) by (apply in_range; lia).
    rewrite E in H. destruct H. }
  destruct (squarest_of_max _ None return_greatest Hne Hc) as (y & Hy & Hin & Hmax).
  exists y. split; [exact Hy|]. split; [apply in_range in Hin; lia|].
  intros x Hx. apply fit_le_iff; [lia|apply Hc; exact Hin|].
  apply Hmax. apply in_range. lia.
Qed.

Lemma squarest_total_in_range_witness :
  exists y, squarest_total 37 10 false = Ok y /\ 37 <= y <= 37 + 10
            /\ forall x, 37 <= x <= 37 + 10 -> fit_le x y.
Proof.
  apply (squarest_total_in_range 37 10 false); [lia|lia|vm_compute; reflexivity].
Defined.

(** X8: with [n < 0] the range is empty and [squarest_total] raises
    [ValueError]. *)
Theorem squarest_total_empty_range (m n : Z) (return_greatest : bool) :
  n < 0 -> squarest_total m n return_greatest = Raise ValueError.
Proof.
  intros Hn. unfold squarest_total. rewrite range_empty by lia. reflexivity.
Qed.

Lemma squarest_total_empty_range_witness :
  squarest_total 5 (-1) false = Raise ValueError.
Proof. apply (squarest_total_empty_range 5 (-1) false). lia. Defined.

(** X9: when a collection of ints in [0, 2^52) has a perfect square,
    [squarest_of] returns one of its perfect squares, of the least key among
    them, or of the greatest key with [reverse_on_key]; the key is the int
    itself when no [sort_key] is given. *)
Theorem squarest_of_perfect_square (c : list Z) (sort_key : option (Z -> Z))
  (reverse_on_key : bool) (s : Z) :
  small c -> In s c -> is_square s = Ok true ->
  exists y, squarest_of c sort_key reverse_on_key = Ok y
            /\ In y c /\ is_square y = Ok true
            /\ forall x, In x c -> is_square x = Ok true ->
                 if reverse_on_key
                 then key_of sort_key x <= key_of sort_key y
                 else key_of sort_key y <= key_of sort_key x.
Proof.
  intros Hc Hs Hq. rewrite squarest_of_small_key by assumption.
  assert (Hsf : In s (filter is_square_b c)).
  { apply filter_In. split; [exact Hs|]. apply is_square_b_true; [apply Hc; exact Hs|exact Hq]. }
  destruct (filter is_square_b c) as [|s0 sq] eqn:E; [destruct Hsf|].
  destruct (sorted_head_key (s0 :: sq) sort_key reverse_on_key ltac:(discriminate))
    as (y & Hy & Hin & Hmin).
  rewrite <- E in Hin, Hmin. apply filter_In in Hin. destruct Hin as [Hyin Hyq].
  exists y. split; [exact Hy|]. split; [exact Hyin|].
  split; [apply is_square_b_true; [apply Hc; exact Hyin|exact Hyq]|].
  intros x Hx Hxq. apply Hmin. apply filter_In. split; [exact Hx|].
  apply is_square_b_true; [apply Hc; exact Hx|exact Hxq].
Qed.

Lemma squarest_of_perfect_square_witness :
  exists y, squarest_of [4; 7; 9] None true = Ok y
            /\ In y [4; 7; 9] /\ is_square y = Ok true
            /\ forall x, In x [4; 7; 9] -> is_square x = Ok true ->
                 if true then key_of None x <= key_of None y
                 else key_of None y <= key_of None x.
Proof.
  apply (squarest_of_perfect_square [4; 7; 9] None true 4);
    [ intros x [<-|[<-|[<-|[]]]]; vm_compute; split; discriminate || reflexivity
    | left; reflexivity
    | vm_compute; reflexivity ].
Defined.

Lemma fold_max_spec xs x :
  let M := fold_left (fun m y => if m <? y then y else m) xs x in
  In M (x :: xs) /\ forall y, In y (x :: xs) -> y <= M.
Proof.
  revert x. induction xs as [|z zs IH]; intros x; cbn [fold_left].
  - split; [left; reflexivity|]. intros y [<-|[]]. lia.
  - destruct (IH (if x <? z then z else x)) as [Hin Hmax].
    split.
    + destruct Hin as [E|Hin]; [|right; right; exact Hin].
      rewrite <- E. destruct (x <? z); [right; left; reflexivity|left; reflexivity].
    + intros y [Hy|[Hy|Hy]].
      * subst y. specialize (Hmax _ (or_introl eq_refl)).
        destruct (Z.ltb_spec x z); lia.
      * subst y. specialize (Hmax _ (or_introl eq_refl)).
        destruct (Z.ltb_spec x z); lia.
      * apply Hmax. right. exact Hy.
Qed.

Lemma fold_min_spec xs x :
  let M := fold_left (fun m y => if y <? m then y else m) xs x in
  In M (x :: xs) /\ forall y, In y (x :: xs) -> M <= y.
Proof.
  revert x. induction xs as [|z zs IH]; intros x; cbn [fold_left].
  - split; [left; reflexivity|]. intros y [<-|[]]. lia.
  - destruct (IH (if z <? x then z else x)) as [Hin Hmin].
    split.
    + destruct Hin as [E|Hin]; [|right; right; exact Hin].
      rewrite <- E. destruct (z <? x); [right; left; reflexivity|left; reflexivity].
    + intros y [Hy|[Hy|Hy]].
      * subst y. specialize (Hmin _ (or_introl eq_refl)).
        destruct (Z.ltb_spec z x); lia.
      * subst y. specialize (Hmin _ (or_introl eq_refl)).
        destruct (Z.ltb_spec z x); lia.
      * apply Hmin. right. exact Hy.
Qed.

(** X10: [r_size] of an empty collection raises [ValueError]; of any other
    it is the difference of two of its items, between which all its items
    lie. *)
Theorem r_size_spec (l : list Z) :
  match l with
  | [] => r_size l = Raise ValueError
  | _ :: _ =>
      exists hi lo, r_size l = Ok (hi - lo) /\ In hi l /\ In lo l
                    /\ forall x, In x l -> lo <= x <= hi
  end.
Proof.
  destruct l as [|x xs]; [reflexivity|].
  destruct (fold_max_spec xs x) as [Hi1 Hi2].
  destruct (fold_min_spec xs x) as [Lo1 Lo2].
  eexists _, _. split; [reflexivity|]. split; [exact Hi1|]. split; [exact Lo1|].
  intros y Hy. split; [apply Lo2|apply Hi2]; exact Hy.
Qed.

(** X11: on [0 <= x < 2^52], the threshold of [is_squarish] is exclusive:
    at [1.0] no [x] is squarish; at the default [0.75] every perfect square
    is. *)
Theorem is_squarish_threshold (x : Z) :
  0 <= x < 2 ^ 52 ->
  is_squarish x (Float float_one) = Ok false
  /\ ((exists k, x = k * k) -> is_squarish x (Float float_0_75) = Ok true).
Proof.
  intros Hx. unfold is_squarish.
  destruct (is_square_iff x Hx) as (b & Hb & Hiff).
  destruct (squareness_good x Hx) as (v & b' & Hs & Hb' & Hg & Hr & _ & H0 & Hone).
  rewrite Hb in Hb'. injection Hb' as <-.
  rewrite Hs. cbn [bind]. split.
  - rewrite num_gtb_rank by (try assumption; exact good_one).
    rewrite rank_one. destruct (Z.ltb_spec (2 ^ 1074) (rank v)); [lia|reflexivity].
  - intros Hk. apply Hiff in Hk. subst b.
    destruct (Z.eq_dec x 0) as [E|E].
    + rewrite (H0 E). vm_compute. reflexivity.
    + rewrite (Hone ltac:(lia) eq_refl). vm_compute. reflexivity.
Qed.

Lemma is_squarish_threshold_witness :
  is_squarish 16 (Float float_one) = Ok false
  /\ ((exists k, 16 = k * k) -> is_squarish 16 (Float float_0_75) = Ok true).
Proof. apply (is_squarish_threshold 16). vm_compute. split; [discriminate|reflexivity]. Defined.

(** X12: for every [x < 0], [squareness x] raises [ValueError], or
    [OverflowError] when [x <= - 2^1023] is too large for a float. *)
Theorem squareness_negative (x : Z) :
  x < 0 ->
  squareness x = Raise ValueError
  \/ (squareness x = Raise OverflowError /\ x <= - 2 ^ 1023).
Proof.
  intros Hx. unfold squareness. destruct (Z.eqb_spec x 0); [lia|].
  destruct (is_square_negative x Hx) as [(_ & E & B)|[_ E]]; rewrite E.
  - right. split; [reflexivity|exact B].
  - left. reflexivity.
Qed.

Lemma squareness_negative_witness :
  squareness (-4) = Raise ValueError
  \/ (squareness (-4) = Raise OverflowError /\ -4 <= - 2 ^ 1023).
Proof. apply (squareness_negative (-4)). lia. Defined.

(** X13: for every [x < 0], [squarish_factors x] raises [ValueError], from
    [math.sqrt] and not from its own last line, or [OverflowError] when
    [x <= - 2^1023]. *)
Theorem squarish_factors_raises_negative (x : Z) :
  x < 0 ->
  squarish_factors x = Raise ValueError
  \/ (squarish_factors x = Raise OverflowError /\ x <= - 2 ^ 1023).
Proof.
  intros Hx. destruct (squarish_factors_negative x Hx) as [H|H]; [right|left]; exact H.
Qed.

Lemma squarish_factors_raises_negative_witness :
  squarish_factors (-20) = Raise ValueError
  \/ (squarish_factors (-20) = Raise OverflowError /\ -20 <= - 2 ^ 1023).
Proof. apply (squarish_factors_raises_negative (-20)). lia. Defined.

(** X14: for every [x < 0], [factors_of x] raises [ValueError], or
    [OverflowError] when [x <= - 2^1023]. *)
Theorem factors_of_negative (x : Z) :
  x < 0 ->
  factors_of x = Raise ValueError
  \/ (factors_of x = Raise OverflowError /\ x <= - 2 ^ 1023).
Proof.
  intros Hx. unfold factors_of.
  destruct (is_square_negative x Hx) as [(_ & E & B)|[_ E]]; rewrite E.
  - right. split; [reflexivity|exact B].
  - left. reflexivity.
Qed.

Lemma factors_of_negative_witness :
  factors_of (-12) = Raise ValueError
  \/ (factors_of (-12) = Raise OverflowError /\ -12 <= - 2 ^ 1023).
Proof. apply (factors_of_negative (-12)). lia. Defined.

(** [math.sqrt] of a non-negative int has no domain error. *)
Lemma math_sqrt_nonneg x :
  0 <= x ->
  math_sqrt x = Raise OverflowError
  \/ exists s i, math_sqrt x = Ok s /\ int_of_float s = Ok i.
Proof.
  intros Hx. destruct (Z.eq_dec x 0) as [->|Hn].
  - right. eexists _, _. split; vm_compute; reflexivity.
  - destruct (math_sqrt_floor_pos x ltac:(lia)) as [[E _]|(s & i & n & Es & Ei & _)].
    + left. exact E.
    + right. exists s, i. split; assumption.
Qed.

(** X15: the [is_square] of arbitrary_ratios.py, which has no [try], gives
    what the [is_square] of squarish.py gives on every [x >= 0]. *)
Theorem is_square_copies_agree (x : Z) :
  0 <= x -> ArbitraryRatiosHelpers.is_square x = Squarish.is_square x.
Proof.
  intros Hx. unfold ArbitraryRatiosHelpers.is_square, Squarish.is_square.
  destruct (math_sqrt_nonneg x Hx) as [E|(s & i & Es & Ei)].
  - rewrite E. reflexivity.
  - rewrite Es. cbn [bind]. rewrite Ei. reflexivity.
Qed.

Lemma is_square_copies_agree_witness :
  ArbitraryRatiosHelpers.is_square 25 = Squarish.is_square 25.
Proof. apply (is_square_copies_agree 25). lia. Defined.

(** X16: on a negative int that fits a float, the [is_square] of
    arbitrary_ratios.py raises [ValueError], where the one of squarish.py
    returns [False]. *)
Theorem is_square_copy_raises (x : Z) :
  - 2 ^ 1023 < x < 0 -> ArbitraryRatiosHelpers.is_square x = Raise ValueError.
Proof.
  intros Hx. unfold ArbitraryRatiosHelpers.is_square.
  destruct (is_square_negative x ltac:(lia)) as [(_ & _ & B)|[_ E]]; [lia|].
  rewrite E. reflexivity.
Qed.

Lemma is_square_copy_raises_witness :
  ArbitraryRatiosHelpers.is_square (-1) = Raise ValueError.
Proof. apply (is_square_copy_raises (-1)). vm_compute. split; reflexivity. Defined.
